(** * Island World: the time loop of [evolve_island_world_gmd2106.ipynb]

    A shallow embedding of the notebook's set-up cells and of its main
    time loop.  The Landlab components the loop drives (kinematic
    extender, flexure, flow accumulator, erosion-deposition, submarine
    diffuser) and numpy's random generator are collaborators of the
    notebook: they are taken as functions of the fields they read to the
    fields they write.  Everything between the calls (the index and mask
    assignments, the elevation update, the sea-level walk, the
    bookkeeping, the plot and save checks) is the notebook's own code and
    is transcribed statement by statement.  What the loop prints, the
    images it plots and the grid files it saves are left out. *)

From Stdlib Require Import QArith Qcanon List Bool Arith Lia.
From Stdlib Require Import Znat.
From Stdlib Require Reals Lra.
From Stdlib Require Import FunctionalExtensionality.
From Stdlib Require String Ascii DecimalString DecimalNat.
Import ListNotations.
Import String.StringSyntax Ascii.AsciiSyntax.
Bind Scope string_scope with String.string.

Set Implicit Arguments.
Local Open Scope nat_scope.

(** ** Numbers

    A numpy float is modelled by an exact rational or by one absorbing
    non-finite value: rounding is abstracted away, the propagation of
    non-finite values is kept.  A comparison with a non-finite value is
    false, as it is for a NaN; the infinities are not told apart from
    it, and the properties of non-finite values below use only what
    holds for all of them: a sum, a difference or a product with a
    non-finite operand, and a quotient with a non-finite numerator, is
    non-finite. *)

Inductive num : Type :=
  | Fin (q : Qc)
  | NaN.

Definition Qc_eqb (a b : Qc) : bool := Qeq_bool a b.
Definition Qc_ltb (a b : Qc) : bool :=
  (Qnum a * QDen b <? Qnum b * QDen a)%Z.
Definition Qc_leb (a b : Qc) : bool := Qle_bool a b.

Definition is_finite (a : num) : bool :=
  match a with Fin _ => true | NaN => false end.

Module F.

Definition add (a b : num) : num :=
  match a, b with Fin x, Fin y => Fin (x + y) | _, _ => NaN end.

Definition sub (a b : num) : num :=
  match a, b with Fin x, Fin y => Fin (x - y) | _, _ => NaN end.

Definition mul (a b : num) : num :=
  match a, b with Fin x, Fin y => Fin (x * y) | _, _ => NaN end.

(** A division by zero gives a non-finite value, no exception: the
    operands of the notebook's only division are numpy values. *)
Definition div (a b : num) : num :=
  match a, b with
  | Fin x, Fin y => if Qc_eqb y 0 then NaN else Fin (x / y)
  | _, _ => NaN
  end.

Definition gt (a b : num) : bool :=
  match a, b with Fin x, Fin y => Qc_ltb y x | _, _ => false end.

Definition ge (a b : num) : bool :=
  match a, b with Fin x, Fin y => Qc_leb y x | _, _ => false end.

Definition eqb (a b : num) : bool :=
  match a, b with
  | Fin x, Fin y => Qc_eqb x y
  | NaN, NaN => true
  | _, _ => false
  end.

Definition of_Z (k : Z) : num := Fin (Q2Qc (inject_Z k)).
Definition of_nat (k : nat) : num := of_Z (Z.of_nat k).
Definition zero : num := of_Z 0.

Definition sum (l : list num) : num := fold_right add zero l.

End F.

Declare Scope num_scope.
Delimit Scope num_scope with num.
Bind Scope num_scope with num.
Infix "+" := F.add : num_scope.
Infix "-" := F.sub : num_scope.
Infix "*" := F.mul : num_scope.
Infix "/" := F.div : num_scope.
Infix ">?" := F.gt (at level 70, no associativity) : num_scope.
Infix ">=?" := F.ge (at level 70, no associativity) : num_scope.

(** ** Grid data *)

Definition node : Type := nat.

(** A numpy array over the nodes of a grid: only the indices below the
    grid's node count are meaningful. *)
Definition Field : Type := node -> num.
Definition Mask : Type := node -> bool.

(** Landlab's node status codes. *)
Inductive NodeStatus : Type :=
  | BC_NODE_IS_CORE
  | BC_NODE_IS_FIXED_VALUE
  | BC_NODE_IS_FIXED_GRADIENT
  | BC_NODE_IS_LOOPED
  | BC_NODE_IS_CLOSED.

Definition is_core (s : NodeStatus) : bool :=
  match s with BC_NODE_IS_CORE => true | _ => false end.

Definition is_fixed_value (s : NodeStatus) : bool :=
  match s with BC_NODE_IS_FIXED_VALUE => true | _ => false end.

(** What the loop uses of the geometry of the hex grid. *)
Record Geometry : Type := mkGeometry {
  number_of_nodes : nat;
  area_of_cell : nat -> num
}.

(** [grid.core_nodes]: the ids of the nodes whose status is core, in
    increasing order. *)
Definition core_nodes (G : Geometry) (status : node -> NodeStatus)
  : list node :=
  filter (fun n => is_core (status n)) (seq 0 (number_of_nodes G)).

Definition mem (n : node) (ids : list node) : bool :=
  existsb (Nat.eqb n) ids.

(** [a[mask] = v[mask]] for a boolean mask. *)
Definition assign_where {A : Type} (mask : Mask) (v a : node -> A)
  : node -> A :=
  fun n => if mask n then v n else a n.

(** [a[ids] = v[ids]] for an array of node ids. *)
Definition assign_at {A : Type} (ids : list node) (v a : node -> A)
  : node -> A :=
  fun n => if mem n ids then v n else a n.

(** The run parameters the loop itself reads; the others of the
    parameter cell only configure the components. *)
Record Params : Type := mkParams {
  sea_level_delta : num;
  crust_datum : num;
  unit_wt : num;
  dt : num;
  num_iter : nat;
  plot_interval : num;
  save_interval : num
}.

(** ** The collaborators

    [Hidden] is the state the Landlab components own (their internals
    and the grid fields only they touch: flow directions, drainage area,
    water-surface elevation, diffusivity, ...); [RNG] is the state of
    numpy's global random generator. *)

Section Notebook.

Context {Hidden RNG : Type}.

Record KeOut : Type := mkKeOut {
  ke_hidden : Hidden;
  ke_z : Field;
  ke_thickness : Field;
  ke_cum_subs : Field
}.

Record EdOut : Type := mkEdOut {
  ed_hidden : Hidden;
  ed_z : Field;
  ed_qs_in : Field
}.

Record SdOut : Type := mkSdOut {
  sd_hidden : Hidden;
  sd_z : Field
}.

(** Each component is given by what one call writes, as a function of
    what it may read.
    - [ke_run_one_step dt h z thickness cum_subs]: the extender, created
      with [track_crustal_thickness=True], rewrites the cumulative
      subsidence, the elevation and the crustal thickness;
    - [fl_update load]: the flexure component recomputes the deflection
      from the load;
    - [fa_run_one_step h status z]: the flow accumulator fills its own
      fields (the fill surface is the separate water-surface field);
    - [ed_run_one_step dt h status z]: erosion-deposition rewrites the
      elevation and its sediment influx [_qs_in];
    - [sd_run_one_step sea_level dt h status z]: the submarine diffuser
      rewrites the elevation;
    - [randn g]: one standard normal draw, which is a finite number. *)
Record Landlab : Type := mkLandlab {
  ke_run_one_step : num -> Hidden -> Field -> Field -> Field -> KeOut;
  fl_update : Field -> Field;
  fa_run_one_step : Hidden -> (node -> NodeStatus) -> Field -> Hidden;
  ed_run_one_step : num -> Hidden -> (node -> NodeStatus) -> Field -> EdOut;
  sd_run_one_step :
    num -> num -> Hidden -> (node -> NodeStatus) -> Field -> SdOut;
  randn : RNG -> Qc * RNG
}.

(** ** The state of the notebook *)

Record World : Type := mkWorld {
  z : Field;  (* topographic__elevation on the hex grid *)
  status_at_node : node -> NodeStatus;  (* grid.status_at_node *)
  subaerial : Mask;  (* the is_subaerial field *)
  cum_depo : Field;  (* cumulative_deposit_thickness *)
  thickness : Field;  (* upper_crust_thickness *)
  cum_subs : Field;  (* cumulative_subsidence_depth *)
  load : Field;  (* lithosphere__overlying_pressure_increment *)
  deflection : Field;  (* lithosphere_surface__elevation_increment *)
  init_deflection : Field;  (* copy of the deflection taken before the loop *)
  perimeter_nodes : Mask;  (* status_at_node != BC_NODE_IS_CORE at load *)
  current_sea_level : num;
  sea_level : list num;  (* list of sea-level values over time *)
  submarine : Mask;  (* np.invert(subaerial) of the current iteration *)
  z0 : Field;  (* z.copy() of the current iteration *)
  qs_in : Field;  (* ed._qs_in *)
  hidden : Hidden;  (* state owned by the components *)
  rng : RNG;  (* state of numpy's global generator *)
  next_plot : num;
  frame_num : nat;
  next_save : num;
  save_num : nat
}.

Definition set_z (v : Field) (w : World) : World :=
  mkWorld v (status_at_node w) (subaerial w) (cum_depo w) (thickness w)
    (cum_subs w) (load w) (deflection w) (init_deflection w)
    (perimeter_nodes w) (current_sea_level w) (sea_level w) (submarine w)
    (z0 w) (qs_in w) (hidden w) (rng w) (next_plot w) (frame_num w)
    (next_save w) (save_num w).
Definition set_status_at_node (v : node -> NodeStatus) (w : World) : World :=
  mkWorld (z w) v (subaerial w) (cum_depo w) (thickness w) (cum_subs w)
    (load w) (deflection w) (init_deflection w) (perimeter_nodes w)
    (current_sea_level w) (sea_level w) (submarine w) (z0 w) (qs_in w)
    (hidden w) (rng w) (next_plot w) (frame_num w) (next_save w) (save_num
    w).
Definition set_subaerial (v : Mask) (w : World) : World :=
  mkWorld (z w) (status_at_node w) v (cum_depo w) (thickness w) (cum_subs w)
    (load w) (deflection w) (init_deflection w) (perimeter_nodes w)
    (current_sea_level w) (sea_level w) (submarine w) (z0 w) (qs_in w)
    (hidden w) (rng w) (next_plot w) (frame_num w) (next_save w) (save_num
    w).
Definition set_cum_depo (v : Field) (w : World) : World :=
  mkWorld (z w) (status_at_node w) (subaerial w) v (thickness w) (cum_subs
    w) (load w) (deflection w) (init_deflection w) (perimeter_nodes w)
    (current_sea_level w) (sea_level w) (submarine w) (z0 w) (qs_in w)
    (hidden w) (rng w) (next_plot w) (frame_num w) (next_save w) (save_num
    w).
Definition set_thickness (v : Field) (w : World) : World :=
  mkWorld (z w) (status_at_node w) (subaerial w) (cum_depo w) v (cum_subs w)
    (load w) (deflection w) (init_deflection w) (perimeter_nodes w)
    (current_sea_level w) (sea_level w) (submarine w) (z0 w) (qs_in w)
    (hidden w) (rng w) (next_plot w) (frame_num w) (next_save w) (save_num
    w).
Definition set_cum_subs (v : Field) (w : World) : World :=
  mkWorld (z w) (status_at_node w) (subaerial w) (cum_depo w) (thickness w)
    v (load w) (deflection w) (init_deflection w) (perimeter_nodes w)
    (current_sea_level w) (sea_level w) (submarine w) (z0 w) (qs_in w)
    (hidden w) (rng w) (next_plot w) (frame_num w) (next_save w) (save_num
    w).
Definition set_load (v : Field) (w : World) : World :=
  mkWorld (z w) (status_at_node w) (subaerial w) (cum_depo w) (thickness w)
    (cum_subs w) v (deflection w) (init_deflection w) (perimeter_nodes w)
    (current_sea_level w) (sea_level w) (submarine w) (z0 w) (qs_in w)
    (hidden w) (rng w) (next_plot w) (frame_num w) (next_save w) (save_num
    w).
Definition set_deflection (v : Field) (w : World) : World :=
  mkWorld (z w) (status_at_node w) (subaerial w) (cum_depo w) (thickness w)
    (cum_subs w) (load w) v (init_deflection w) (perimeter_nodes w)
    (current_sea_level w) (sea_level w) (submarine w) (z0 w) (qs_in w)
    (hidden w) (rng w) (next_plot w) (frame_num w) (next_save w) (save_num
    w).
Definition set_init_deflection (v : Field) (w : World) : World :=
  mkWorld (z w) (status_at_node w) (subaerial w) (cum_depo w) (thickness w)
    (cum_subs w) (load w) (deflection w) v (perimeter_nodes w)
    (current_sea_level w) (sea_level w) (submarine w) (z0 w) (qs_in w)
    (hidden w) (rng w) (next_plot w) (frame_num w) (next_save w) (save_num
    w).
Definition set_perimeter_nodes (v : Mask) (w : World) : World :=
  mkWorld (z w) (status_at_node w) (subaerial w) (cum_depo w) (thickness w)
    (cum_subs w) (load w) (deflection w) (init_deflection w) v
    (current_sea_level w) (sea_level w) (submarine w) (z0 w) (qs_in w)
    (hidden w) (rng w) (next_plot w) (frame_num w) (next_save w) (save_num
    w).
Definition set_current_sea_level (v : num) (w : World) : World :=
  mkWorld (z w) (status_at_node w) (subaerial w) (cum_depo w) (thickness w)
    (cum_subs w) (load w) (deflection w) (init_deflection w)
    (perimeter_nodes w) v (sea_level w) (submarine w) (z0 w) (qs_in w)
    (hidden w) (rng w) (next_plot w) (frame_num w) (next_save w) (save_num
    w).
Definition set_sea_level (v : list num) (w : World) : World :=
  mkWorld (z w) (status_at_node w) (subaerial w) (cum_depo w) (thickness w)
    (cum_subs w) (load w) (deflection w) (init_deflection w)
    (perimeter_nodes w) (current_sea_level w) v (submarine w) (z0 w) (qs_in
    w) (hidden w) (rng w) (next_plot w) (frame_num w) (next_save w)
    (save_num w).
Definition set_submarine (v : Mask) (w : World) : World :=
  mkWorld (z w) (status_at_node w) (subaerial w) (cum_depo w) (thickness w)
    (cum_subs w) (load w) (deflection w) (init_deflection w)
    (perimeter_nodes w) (current_sea_level w) (sea_level w) v (z0 w) (qs_in
    w) (hidden w) (rng w) (next_plot w) (frame_num w) (next_save w)
    (save_num w).
Definition set_z0 (v : Field) (w : World) : World :=
  mkWorld (z w) (status_at_node w) (subaerial w) (cum_depo w) (thickness w)
    (cum_subs w) (load w) (deflection w) (init_deflection w)
    (perimeter_nodes w) (current_sea_level w) (sea_level w) (submarine w) v
    (qs_in w) (hidden w) (rng w) (next_plot w) (frame_num w) (next_save w)
    (save_num w).
Definition set_qs_in (v : Field) (w : World) : World :=
  mkWorld (z w) (status_at_node w) (subaerial w) (cum_depo w) (thickness w)
    (cum_subs w) (load w) (deflection w) (init_deflection w)
    (perimeter_nodes w) (current_sea_level w) (sea_level w) (submarine w)
    (z0 w) v (hidden w) (rng w) (next_plot w) (frame_num w) (next_save w)
    (save_num w).
Definition set_hidden (v : Hidden) (w : World) : World :=
  mkWorld (z w) (status_at_node w) (subaerial w) (cum_depo w) (thickness w)
    (cum_subs w) (load w) (deflection w) (init_deflection w)
    (perimeter_nodes w) (current_sea_level w) (sea_level w) (submarine w)
    (z0 w) (qs_in w) v (rng w) (next_plot w) (frame_num w) (next_save w)
    (save_num w).
Definition set_rng (v : RNG) (w : World) : World :=
  mkWorld (z w) (status_at_node w) (subaerial w) (cum_depo w) (thickness w)
    (cum_subs w) (load w) (deflection w) (init_deflection w)
    (perimeter_nodes w) (current_sea_level w) (sea_level w) (submarine w)
    (z0 w) (qs_in w) (hidden w) v (next_plot w) (frame_num w) (next_save w)
    (save_num w).
Definition set_next_plot (v : num) (w : World) : World :=
  mkWorld (z w) (status_at_node w) (subaerial w) (cum_depo w) (thickness w)
    (cum_subs w) (load w) (deflection w) (init_deflection w)
    (perimeter_nodes w) (current_sea_level w) (sea_level w) (submarine w)
    (z0 w) (qs_in w) (hidden w) (rng w) v (frame_num w) (next_save w)
    (save_num w).
Definition set_frame_num (v : nat) (w : World) : World :=
  mkWorld (z w) (status_at_node w) (subaerial w) (cum_depo w) (thickness w)
    (cum_subs w) (load w) (deflection w) (init_deflection w)
    (perimeter_nodes w) (current_sea_level w) (sea_level w) (submarine w)
    (z0 w) (qs_in w) (hidden w) (rng w) (next_plot w) v (next_save w)
    (save_num w).
Definition set_next_save (v : num) (w : World) : World :=
  mkWorld (z w) (status_at_node w) (subaerial w) (cum_depo w) (thickness w)
    (cum_subs w) (load w) (deflection w) (init_deflection w)
    (perimeter_nodes w) (current_sea_level w) (sea_level w) (submarine w)
    (z0 w) (qs_in w) (hidden w) (rng w) (next_plot w) (frame_num w) v
    (save_num w).
Definition set_save_num (v : nat) (w : World) : World :=
  mkWorld (z w) (status_at_node w) (subaerial w) (cum_depo w) (thickness w)
    (cum_subs w) (load w) (deflection w) (init_deflection w)
    (perimeter_nodes w) (current_sea_level w) (sea_level w) (submarine w)
    (z0 w) (qs_in w) (hidden w) (rng w) (next_plot w) (frame_num w)
    (next_save w) v.

(** The content of [initial_island.grid], with the components as they are
    after their instantiation and the generator as seeded. *)
Record LoadedGrid : Type := mkLoadedGrid {
  geometry : Geometry;
  topographic__elevation : Field;
  status0 : node -> NodeStatus;
  hidden0 : Hidden;
  rng0 : RNG
}.

Variable L : Landlab.
Variable P : Params.
Variable G : Geometry.

(** ** The sea level function *)

(** [sea_level_random(current_sea_level, delta)], with the draw made
    explicit. *)
Definition sea_level_random (current_sea_level delta : num) (draw : Qc)
  : num :=
  (current_sea_level + delta * Fin draw)%num.

(** ** The display function

    Of [display_island] only the re-run of the flow router changes the
    state; the image it writes is not modelled. *)
Definition display_island (w : World) : World :=
  set_hidden (fa_run_one_step L (hidden w) (status_at_node w) (z w)) w.

(** ** The statements of the loop body, in source order *)

(** [ke.run_one_step(dt)] *)
Definition stmt_ke (w : World) : World :=
  let r := ke_run_one_step L (dt P) (hidden w) (z w) (thickness w)
             (cum_subs w) in
  set_cum_subs (ke_cum_subs r)
    (set_thickness (ke_thickness r) (set_z (ke_z r)
       (set_hidden (ke_hidden r) w))).

(** [load[grid.core_nodes] = unit_wt * (thickness[grid.core_nodes]
    - cum_subs[grid.core_nodes])] *)
Definition stmt_load (w : World) : World :=
  set_load
    (assign_at (core_nodes G (status_at_node w))
       (fun n => unit_wt P * (thickness w n - cum_subs w n))%num
       (load w)) w.

(** [fl.update()] *)
Definition stmt_fl (w : World) : World :=
  set_deflection (fl_update L (load w)) w.

(** [z[:] = crust_datum + thickness
            - (cum_subs + (deflection - init_deflection))] *)
Definition stmt_z (w : World) : World :=
  set_z
    (fun n => crust_datum P + thickness w n
              - (cum_subs w n + (deflection w n - init_deflection w n)))%num
    w.

(** [current_sea_level = sea_level_random(current_sea_level,
    sea_level_delta)] *)
Definition stmt_sea_level (w : World) : World :=
  let d := randn L (rng w) in
  set_rng (snd d)
    (set_current_sea_level
       (sea_level_random (current_sea_level w) (sea_level_delta P) (fst d))
       w).

(** [sea_level.append(current_sea_level)] *)
Definition stmt_append (w : World) : World :=
  set_sea_level (sea_level w ++ [current_sea_level w]) w.

(** [subaerial[:] = z > current_sea_level] *)
Definition stmt_subaerial (w : World) : World :=
  set_subaerial (fun n => (z w n >? current_sea_level w)%num) w.

(** [submarine = np.invert(subaerial)] *)
Definition stmt_submarine (w : World) : World :=
  set_submarine (fun n => negb (subaerial w n)) w.

(** [z0 = z.copy()] *)
Definition stmt_z0 (w : World) : World :=
  set_z0 (z w) w.

(** [grid.status_at_node[submarine] = grid.BC_NODE_IS_FIXED_VALUE] *)
Definition stmt_status_submarine_fixed (w : World) : World :=
  set_status_at_node
    (assign_where (submarine w) (fun _ => BC_NODE_IS_FIXED_VALUE)
       (status_at_node w)) w.

(** [grid.status_at_node[subaerial] = grid.BC_NODE_IS_CORE] *)
Definition stmt_status_subaerial_core (w : World) : World :=
  set_status_at_node
    (assign_where (subaerial w) (fun _ => BC_NODE_IS_CORE)
       (status_at_node w)) w.

(** [fa.run_one_step()] *)
Definition stmt_fa (w : World) : World :=
  set_hidden (fa_run_one_step L (hidden w) (status_at_node w) (z w)) w.

(** [ed.run_one_step(dt)] *)
Definition stmt_ed (w : World) : World :=
  let r := ed_run_one_step L (dt P) (hidden w) (status_at_node w) (z w) in
  set_qs_in (ed_qs_in r) (set_z (ed_z r) (set_hidden (ed_hidden r) w)).

(** [depo_rate = ed._qs_in / grid.area_of_cell[0]] *)
Definition depo_rate (w : World) : Field :=
  fun n => (qs_in w n / area_of_cell G 0)%num.

(** [z[submarine] += depo_rate[submarine] * dt] *)
Definition stmt_deposit (w : World) : World :=
  set_z
    (assign_where (submarine w)
       (fun n => z w n + depo_rate w n * dt P)%num (z w)) w.

(** [grid.status_at_node[submarine] = grid.BC_NODE_IS_CORE] *)
Definition stmt_status_submarine_core (w : World) : World :=
  set_status_at_node
    (assign_where (submarine w) (fun _ => BC_NODE_IS_CORE)
       (status_at_node w)) w.

(** [grid.status_at_node[perimeter_nodes] = grid.BC_NODE_IS_FIXED_VALUE] *)
Definition stmt_status_perimeter_fixed (w : World) : World :=
  set_status_at_node
    (assign_where (perimeter_nodes w) (fun _ => BC_NODE_IS_FIXED_VALUE)
       (status_at_node w)) w.

(** [sd.sea_level = current_sea_level; sd.run_one_step(dt)] *)
Definition stmt_sd (w : World) : World :=
  let r := sd_run_one_step L (current_sea_level w) (dt P) (hidden w)
             (status_at_node w) (z w) in
  set_z (sd_z r) (set_hidden (sd_hidden r) w).

(** [cum_depo[grid.core_nodes] += z[grid.core_nodes] - z0[grid.core_nodes]] *)
Definition stmt_cum_depo (w : World) : World :=
  set_cum_depo
    (assign_at (core_nodes G (status_at_node w))
       (fun n => cum_depo w n + (z w n - z0 w n))%num (cum_depo w)) w.

(** [thickness[grid.core_nodes] += z[grid.core_nodes] - z0[grid.core_nodes]] *)
Definition stmt_thickness (w : World) : World :=
  set_thickness
    (assign_at (core_nodes G (status_at_node w))
       (fun n => thickness w n + (z w n - z0 w n))%num (thickness w)) w.

(** [if i*dt >= next_plot: frame_num += 1; display_island(...);
    next_plot += plot_interval] *)
Definition stmt_plot (i : nat) (w : World) : World :=
  if (F.of_nat i * dt P >=? next_plot w)%num then
    let w := set_frame_num (frame_num w + 1) w in
    let w := display_island w in
    set_next_plot (next_plot w + plot_interval P)%num w
  else w.

(** [if i*dt >= next_save: save_num += 1; save_grid(...);
    next_save += save_interval]; the file written is not modelled. *)
Definition stmt_save (i : nat) (w : World) : World :=
  if (F.of_nat i * dt P >=? next_save w)%num then
    let w := set_save_num (save_num w + 1) w in
    set_next_save (next_save w + save_interval P)%num w
  else w.

(** ** The body of the time loop *)

Definition loop_body (i : nat) (w : World) : World :=
  (* Tectonic extension & flexure *)
  let w := stmt_ke w in
  let w := stmt_load w in
  let w := stmt_fl w in
  let w := stmt_z w in
  (* Adjust sea level *)
  let w := stmt_sea_level w in
  let w := stmt_append w in
  let w := stmt_subaerial w in
  let w := stmt_submarine w in
  (* Remember previous topo *)
  let w := stmt_z0 w in
  (* Subaerial erosion *)
  let w := stmt_status_submarine_fixed w in
  let w := stmt_status_subaerial_core w in
  let w := stmt_fa w in
  let w := stmt_ed w in
  (* Submarine deposition *)
  let w := stmt_deposit w in
  (* Submarine diffusion *)
  let w := stmt_status_submarine_core w in
  let w := stmt_status_perimeter_fixed w in
  let w := stmt_sd w in
  (* Cumulative depo *)
  let w := stmt_cum_depo w in
  (* Update crustal thickness *)
  let w := stmt_thickness w in
  (* Plot *)
  let w := stmt_plot i w in
  (* Save *)
  stmt_save i w.

(** [for i in range(1, k + 1)] *)
Definition run (k : nat) (w : World) : World :=
  fold_left (fun w i => loop_body i w) (seq 1 k) w.

(** ** The phases of one step *)

Definition EXTENSION (w : World) : World := stmt_ke w.

Definition LOAD_UPDATE (w : World) : World := stmt_load w.

Definition FLEXURE (w : World) : World := stmt_z (stmt_fl w).

Definition SEA_LEVEL_UPDATE (w : World) : World :=
  stmt_append (stmt_sea_level w).

Definition LAND_SEA_PARTITION_1 (w : World) : World :=
  stmt_status_subaerial_core
    (stmt_status_submarine_fixed
       (stmt_z0 (stmt_submarine (stmt_subaerial w)))).

Definition FLUVIAL_EROSION (w : World) : World := stmt_ed (stmt_fa w).

Definition SUBMARINE_DEPOSITION (w : World) : World := stmt_deposit w.

Definition LAND_SEA_PARTITION_2 (w : World) : World :=
  stmt_status_perimeter_fixed (stmt_status_submarine_core w).

Definition SUBMARINE_DIFFUSION (w : World) : World := stmt_sd w.

Definition BOOKKEEPING (w : World) : World :=
  stmt_thickness (stmt_cum_depo w).

Definition compose {A : Type} (fs : list (A -> A)) (a : A) : A :=
  fold_left (fun a f => f a) fs a.

(** The phases in the order of the step. *)
Definition phases : list (World -> World) :=
  [ EXTENSION; LOAD_UPDATE; FLEXURE; SEA_LEVEL_UPDATE;
    LAND_SEA_PARTITION_1; FLUVIAL_EROSION; SUBMARINE_DEPOSITION;
    LAND_SEA_PARTITION_2; SUBMARINE_DIFFUSION; BOOKKEEPING ].

Definition run_step (w : World) : World := compose phases w.

(** ** The cells before the loop *)

Definition zeros : Field := fun _ => F.zero.

Definition initial_world (g : LoadedGrid) : World :=
  let z := topographic__elevation g in
  (* thickness[:] = z - crust_datum *)
  let thickness := (fun n => z n - crust_datum P)%num in
  (* load[:] = unit_wt * thickness *)
  let load := (fun n => unit_wt P * thickness n)%num in
  (* fl.update() *)
  let deflection := fl_update L load in
  let w :=
    {| z := z;
       status_at_node := status0 g;
       subaerial := fun _ => false;
       cum_depo := zeros;
       thickness := thickness;
       (* cumulative_subsidence_depth, zero-filled by the extender *)
       cum_subs := zeros;
       load := load;
       deflection := deflection;
       init_deflection := deflection;
       perimeter_nodes := fun n => negb (is_core (status0 g n));
       current_sea_level := F.zero;
       sea_level := [];
       (* [submarine] and [z0] are first assigned inside the loop *)
       submarine := fun _ => false;
       z0 := z;
       qs_in := zeros;
       hidden := hidden0 g;
       rng := rng0 g;
       next_plot := plot_interval P;
       frame_num := 0;
       next_save := save_interval P;
       save_num := 0 |} in
  (* display_island(grid, 0.0, 0, ndigits) *)
  display_island w.

(** ** Views of the state used by the properties *)

(** The core nodes are the nodes off the perimeter. *)
Definition core_is_interior (w : World) : Prop :=
  forall n, is_core (status_at_node w n) = negb (perimeter_nodes w n).

(** The nodes the load update and the bookkeeping write: the nodes of the
    grid off the perimeter. *)
Definition interior (w : World) (n : node) : bool :=
  (n <? number_of_nodes G) && negb (perimeter_nodes w n).

(** The state after the elevation update of an iteration. *)
Definition after_flexure (w : World) : World :=
  FLEXURE (LOAD_UPDATE (EXTENSION w)).

(** Two states that differ at most in the flow router's state and in the
    plot and save counters. *)
Definition same_simulation_state (a b : World) : Prop :=
  z a = z b /\ status_at_node a = status_at_node b
  /\ subaerial a = subaerial b /\ cum_depo a = cum_depo b
  /\ thickness a = thickness b /\ cum_subs a = cum_subs b
  /\ load a = load b /\ deflection a = deflection b
  /\ init_deflection a = init_deflection b
  /\ perimeter_nodes a = perimeter_nodes b
  /\ current_sea_level a = current_sea_level b
  /\ sea_level a = sea_level b /\ submarine a = submarine b
  /\ z0 a = z0 b /\ qs_in a = qs_in b /\ rng a = rng b.

End Notebook.

Arguments World : clear implicits.
Arguments Landlab : clear implicits.
Arguments LoadedGrid : clear implicits.
Arguments KeOut : clear implicits.
Arguments EdOut : clear implicits.
Arguments SdOut : clear implicits.

(** The whole run, from the loaded grid. *)
Definition main {Hidden RNG : Type} (L : Landlab Hidden RNG) (P : Params)
  (g : LoadedGrid Hidden RNG) : World Hidden RNG :=
  run L P (geometry g) (num_iter P) (initial_world L P g).

(** A run with extension rate 0: a call of the extender leaves the
    crustal thickness and the cumulative subsidence as they are. *)
Definition extension_off {Hidden RNG : Type} (L : Landlab Hidden RNG)
  : Prop :=
  forall dt h z th cs n,
    ke_thickness (ke_run_one_step L dt h z th cs) n = th n
    /\ ke_cum_subs (ke_run_one_step L dt h z th cs) n = cs n.

(** A run with isostasy disabled: the deflection does not respond to the
    load. *)
Definition isostasy_off {Hidden RNG : Type} (L : Landlab Hidden RNG)
  : Prop :=
  forall l1 l2 n, fl_update L l1 n = fl_update L l2 n.

(** ** The sea level as a random walk

    The walk the specification describes, written on its own to compare
    the loop with it: from a sea level and a generator state, [k]
    advances, each of which draws one standard normal value from the
    generator state the advance before it left and adds [delta] times
    the draw to the sea level.  [walk] gives the sea level and the
    generator state after [k] advances, [walk_history] the sea levels
    after the first, the second, ... the [k]-th advance. *)
Fixpoint walk {Hidden RNG : Type} (L : Landlab Hidden RNG) (delta : num)
  (k : nat) (level : num) (g : RNG) : num * RNG :=
  match k with
  | 0 => (level, g)
  | S j =>
      let s := walk L delta j level g in
      let d := randn L (snd s) in
      ((fst s + delta * Fin (fst d))%num, snd d)
  end.

Definition walk_history {Hidden RNG : Type} (L : Landlab Hidden RNG)
  (delta : num) (k : nat) (level : num) (g : RNG) : list num :=
  map (fun j => fst (walk L delta j level g)) (seq 1 k).

(** ** The cells after the loop *)

(** [cdep = cum_depo.copy(); cdep[perimeter_nodes] = 0.0] *)
Definition cdep {Hidden RNG : Type} (w : World Hidden RNG) : Field :=
  assign_where (perimeter_nodes w) (fun _ => F.zero) (cum_depo w).

(** ** The names of the files the loop writes *)

(** Python's [str] of a non-negative [int]. *)
Definition str (n : nat) : String.string :=
  DecimalString.NilEmpty.string_of_uint (Nat.to_uint n).

Fixpoint zeros_string (k : nat) : String.string :=
  match k with
  | 0 => String.EmptyString
  | S k => String.String "0" (zeros_string k)
  end.

(** Python's [str.zfill]: no padding when the string is already wide
    enough; a leading sign stays in front of the padding. *)
Definition zfill (s : String.string) (width : nat) : String.string :=
  if width <=? String.length s then s
  else
    let fill := zeros_string (width - String.length s) in
    match s with
    | String.String c rest =>
        if (Ascii.eqb c "+" || Ascii.eqb c "-")%bool
        then String.String c (String.append fill rest)
        else String.append fill s
    | String.EmptyString => fill
    end.

(** ['island' + str(frame_num).zfill(ndigits) + '.png'] *)
Definition frame_file (frame_num ndigits : nat) : String.string :=
  String.append "island"
    (String.append (zfill (str frame_num) ndigits) ".png").

(** [save_name + str(save_num).zfill(ndigits) + '.grid'] *)
Definition save_file (save_name : String.string) (save_num ndigits : nat)
  : String.string :=
  String.append save_name
    (String.append (zfill (str save_num) ndigits) ".grid").

(** ** The images *)

(** The fields of the flow router that the notebook reads back from the
    grid. *)
Record FlowFields (Hidden : Type) : Type := mkFlowFields {
  drainage_area : Hidden -> Field;
  water_surface__elevation : Hidden -> Field
}.

(** The plotting and display parameters of the parameter cell. *)
Record Display : Type := mkDisplay {
  max_elev_for_color_scale : num;
  scale_fac_for_surface_water : num;
  area_threshold : num
}.

(** Unary minus. *)
Definition F_neg (a : num) : num :=
  match a with Fin x => Fin (- x) | NaN => NaN end.

Definition decimal (a : Z) (b : positive) : num := Fin (Q2Qc (a # b)).

Section Images.

Context {Hidden RNG : Type}.
Variable L : Landlab Hidden RNG.
Variable Fl : FlowFields Hidden.
Variable D : Display.

(** [is_channel_or_flooded = np.logical_or(area > area_threshold,
    wse > z)], on the state the flow router left. *)
Definition is_channel_or_flooded (threshold : num) (w : World Hidden RNG)
  : Mask :=
  fun n =>
    (drainage_area Fl (hidden w) n >? threshold)%num
    || (water_surface__elevation Fl (hidden w) n >? z w n)%num.

(** The array [display_island(grid, current_sea_level, ...)] hands to
    [imshow_grid]. *)
Definition earth_sea_image (w : World Hidden RNG) (sea : num) : Field :=
  (* fa.run_one_step() *)
  let w := display_island L w in
  (* fresh_water_elev_scale = -(scale_fac_for_surface_water
                                * max_elev_for_color_scale) *)
  let fresh_water_elev_scale :=
    F_neg (scale_fac_for_surface_water D * max_elev_for_color_scale D) in
  (* earth_sea = z - current_sea_level *)
  let earth_sea := (fun n => z w n - sea)%num in
  (* is_fresh_water = np.logical_and(is_channel_or_flooded,
                                     earth_sea > 0.0) *)
  let is_fresh_water :=
    fun n => is_channel_or_flooded (area_threshold D) w n
             && (earth_sea n >? F.zero)%num in
  (* earth_sea[is_fresh_water] = fresh_water_elev_scale *)
  assign_where is_fresh_water (fun _ => fresh_water_elev_scale) earth_sea.

(** The constants of the topography cell after the loop. *)
Definition cscale : num := decimal 1500 1.
Definition deep_water_scale : num := F_neg cscale.
Definition river_scale : num := (F_neg (decimal 1 2) * cscale)%num.
Definition final_area_threshold : num := decimal 50000000 1.

(** The array the topography cell after the loop hands to
    [imshow_grid]. *)
Definition final_image (w : World Hidden RNG) : Field :=
  (* za = grid.at_node['topographic__elevation'] - current_sea_level *)
  let za0 := (fun n => z w n - current_sea_level w)%num in
  (* river = np.logical_and(grid.at_node['drainage_area']
                            > area_threshold, za > 0.0) *)
  let river :=
    fun n => (drainage_area Fl (hidden w) n >? final_area_threshold)%num
             && (za0 n >? F.zero)%num in
  (* za[river] = river_scale *)
  let za1 := assign_where river (fun _ => river_scale) za0 in
  (* za[za < deep_water_scale] = deep_water_scale *)
  let za2 :=
    assign_where (fun n => (deep_water_scale >? za1 n)%num)
      (fun _ => deep_water_scale) za1 in
  (* fa.run_one_step() *)
  let w' := display_island L w in
  (* lake = np.logical_and(wse > z, za > 0.0) *)
  let lake :=
    fun n => (water_surface__elevation Fl (hidden w') n >? z w' n)%num
             && (za2 n >? F.zero)%num in
  (* za[lake] = river_scale *)
  assign_where lake (fun _ => river_scale) za2.

End Images.

(** ** The cross-sectional profile *)

(** What the profile cell reads of the layout of the hex grid. *)
Record Layout : Type := mkLayout {
  number_of_node_rows : nat;
  number_of_node_columns : nat;
  spacing : num
}.

(** [np.maximum] *)
Definition F_maximum (a b : num) : num :=
  match a, b with
  | Fin x, Fin y => Fin (if Qc_ltb x y then y else x)
  | _, _ => NaN
  end.

(** [startnode = (grid.number_of_node_rows // 2)
                 * grid.number_of_node_columns;
     endnode = startnode + grid.number_of_node_columns;
     midrow = np.arange(startnode, endnode, dtype=int)] *)
Definition midrow (Y : Layout) : list node :=
  let startnode := (number_of_node_rows Y / 2) * number_of_node_columns Y in
  let endnode := startnode + number_of_node_columns Y in
  seq startnode (endnode - startnode).

(** [x = 0.001 * grid.spacing * np.arange(0.0, len(midrow))] *)
Definition profile_x (Y : Layout) : list num :=
  map (fun j => (decimal 1 1000 * spacing Y * F.of_nat j)%num)
    (seq 0 (length (midrow Y))).

(** [z[midrow] - np.maximum(cdep[midrow], 0.0)], the basement curve *)
Definition basement {Hidden RNG : Type} (Y : Layout)
  (w : World Hidden RNG) : list num :=
  map (fun n => (z w n - F_maximum (cdep w n) F.zero)%num) (midrow Y).

(** [z[midrow]], the surface curve *)
Definition surface {Hidden RNG : Type} (Y : Layout)
  (w : World Hidden RNG) : list num :=
  map (z w) (midrow Y).

(** ** Create Initial Island Topography: the shield

    The coordinates and elevations of this cell go through a square
    root and [np.pi]; they are modelled by real numbers. *)

Module Shield.

Import Reals.
Local Open Scope R_scope.

(** The node coordinates of the hex grid. *)
Record Nodes : Type := mkNodes {
  number_of_nodes : nat;
  x_of_node : node -> R;
  y_of_node : node -> R
}.

(** [np.amax] of an array over the nodes; it raises on an empty
    array. *)
Definition amax (count : nat) (a : node -> R) : option R :=
  match count with
  | O => None
  | S k => Some (fold_left Rmax (map a (seq 1 k)) (a O))
  end.

(** The distance of a node from the centre [(ctr_x, ctr_y)]:
    [np.sqrt((x - ctr_x)**2 + (y - ctr_y)**2)] *)
Definition dist (g : Nodes) (ctr_x ctr_y : R) (n : node) : R :=
  sqrt ((x_of_node g n - ctr_x) ^ 2 + (y_of_node g n - ctr_y) ^ 2).

(** The centre [shieldify] measures from:
    [ctr_x = 0.5 * np.amax(x); ctr_y = 0.5 * np.amax(y)] *)
Definition centre (g : Nodes) : option (R * R) :=
  match amax (number_of_nodes g) (x_of_node g),
        amax (number_of_nodes g) (y_of_node g) with
  | Some mx, Some my => Some (0.5 * mx, 0.5 * my)
  | _, _ => None
  end.

(** [shieldify(grid, topo, slope, max_add_topo)]:
    [topo[:] += max_add_topo - slope * dist] *)
Definition shieldify (g : Nodes) (topo : node -> R)
  (slope max_add_topo : R) : option (node -> R) :=
  match centre g with
  | Some (ctr_x, ctr_y) =>
      Some (fun n => topo n + (max_add_topo - slope * dist g ctr_x ctr_y n))
  | None => None
  end.

(** [island_area = fill_proportion * np.amax(grid.x_of_node)
                   * np.amax(grid.y_of_node)] *)
Definition island_area (g : Nodes) (fill_proportion : R) : option R :=
  match amax (number_of_nodes g) (x_of_node g),
        amax (number_of_nodes g) (y_of_node g) with
  | Some mx, Some my => Some (fill_proportion * mx * my)
  | _, _ => None
  end.

(** [island_radius = (island_area / np.pi) ** 0.5], for an area that is
    not negative (the power of a negative float is a complex number,
    which is not modelled). *)
Definition island_radius (area : R) : R := sqrt (area / PI).

(** [max_ht = shield_slope * island_radius;
     shieldify(grid, z, shield_slope, max_ht)] *)
Definition shield_cell (g : Nodes) (z : node -> R)
  (fill_proportion shield_slope : R) : option (node -> R) :=
  match island_area g fill_proportion with
  | Some area => shieldify g z shield_slope (shield_slope * island_radius area)
  | None => None
  end.

End Shield.

(** ** Display data for the small world *)

Module Gallery.

(** A flow router that reports a large drainage area at node 1 only and
    a water surface at 4 m everywhere. *)
Definition flow : FlowFields nat :=
  {| drainage_area :=
       fun _ n => match n with
                  | 1 => decimal 60000000 1
                  | _ => decimal 1000000 1
                  end;
     water_surface__elevation := fun _ _ => decimal 4 1 |}.

(** The display parameters of the parameter cell. *)
Definition display : Display :=
  {| max_elev_for_color_scale := decimal 1650 1;
     scale_fac_for_surface_water := decimal 3 10;
     area_threshold := decimal 50000000 1 |}.

(** A grid of two rows and two columns. *)
Definition layout : Layout :=
  {| number_of_node_rows := 2;
     number_of_node_columns := 2;
     spacing := decimal 1000 1 |}.

Import Reals.

(** A grid of one node, at [(2, 2)]. *)
Definition one_node : Shield.Nodes :=
  Shield.mkNodes 1 (fun _ => 2%R) (fun _ => 2%R).

End Gallery.

(** ** A small world to run the loop on *)

Module Demo.

Definition q (a : Z) (b : positive) : num := Fin (Q2Qc (a # b)).

(** Four nodes in a row: 0 and 3 on the perimeter, 1 and 2 inside. *)
Definition geom : Geometry :=
  {| number_of_nodes := 4; area_of_cell := fun _ => q 4 1 |}.

Definition status : node -> NodeStatus :=
  fun n =>
    match n with
    | 1 | 2 => BC_NODE_IS_CORE
    | _ => BC_NODE_IS_FIXED_VALUE
    end.

(** An island node next to a submerged one, deep water around. *)
Definition island : Field :=
  fun n => match n with 1 => q 3 1 | 2 => q (-2) 1 | _ => q (-5) 1 end.

(** A grid that lies at the initial sea level everywhere. *)
Definition shoal : Field := fun _ => q 0 1.

(** A grid that stands above the sea everywhere. *)
Definition plateau : Field :=
  fun n => match n with 1 => q 6 1 | _ => q 5 1 end.

Definition grid_of (elev : Field) : LoadedGrid nat nat :=
  {| geometry := geom;
     topographic__elevation := elev;
     status0 := status;
     hidden0 := 0;
     rng0 := 0 |}.

(** An extender with extension rate 0. *)
Definition ke_quiet (_ : num) (h : nat) (z th cs : Field) : KeOut nat :=
  mkKeOut h z th cs.

(** No flexural response. *)
Definition fl_flat (_ : Field) : Field := fun _ => F.zero.

Definition fa_count (h : nat) (_ : node -> NodeStatus) (_ : Field) : nat :=
  S h.

(** Lowers every core node by 1/2 and reports an influx of 2 at every
    node. *)
Definition ed_erode (_ : num) (h : nat) (st : node -> NodeStatus)
  (z : Field) : EdOut nat :=
  mkEdOut h
    (fun n => if is_core (st n) then (z n - q 1 2)%num else z n)
    (fun _ => q 2 1).

(** A solver that goes unstable at node 1. *)
Definition ed_blowup (_ : num) (h : nat) (_ : node -> NodeStatus)
  (z : Field) : EdOut nat :=
  mkEdOut h (fun n => match n with 1 => NaN | _ => z n end) zeros.

Definition sd_idle (_ _ : num) (h : nat) (_ : node -> NodeStatus)
  (z : Field) : SdOut nat :=
  mkSdOut h z.

(** A diffuser with a small coefficient at every core node, above the
    sea as well as below. *)
Definition sd_smooth (_ _ : num) (h : nat) (st : node -> NodeStatus)
  (z : Field) : SdOut nat :=
  mkSdOut h
    (fun n =>
       if is_core (st n)
       then (z n + q 1 1000 * (z (pred n) + z (S n) - (z n + z n)))%num
       else z n).

(** A generator whose draws are all 0. *)
Definition randn_zero (g : nat) : Qc * nat := (Q2Qc 0, S g).

Definition plain : Landlab nat nat :=
  mkLandlab ke_quiet fl_flat fa_count ed_erode sd_idle randn_zero.

Definition smooth : Landlab nat nat :=
  mkLandlab ke_quiet fl_flat fa_count ed_erode sd_smooth randn_zero.

Definition unstable : Landlab nat nat :=
  mkLandlab ke_quiet fl_flat fa_count ed_blowup sd_idle randn_zero.

Definition params : Params :=
  {| sea_level_delta := F.zero;
     crust_datum := q (-10) 1;
     unit_wt := q 1 1;
     dt := q 1 1;
     num_iter := 3;
     plot_interval := q 2 1;
     save_interval := q 3 1 |}.

(** The state the loop starts from on each of the three grids. *)
Definition start (L : Landlab nat nat) (elev : Field) : World nat nat :=
  initial_world L params (grid_of elev).

(** The state at the first partition of the first iteration. *)
Definition at_partition (L : Landlab nat nat) (elev : Field)
  : World nat nat :=
  SEA_LEVEL_UPDATE L params
    (FLEXURE L params
       (LOAD_UPDATE params geom (EXTENSION L params (start L elev)))).

(** A generator whose state counts the draws made so far and whose next
    draw is that count: 0, 1, 2, ... *)
Definition randn_count (g : nat) : Qc * nat :=
  (Q2Qc (inject_Z (Z.of_nat g)), S g).

Definition drifting : Landlab nat nat :=
  mkLandlab ke_quiet fl_flat fa_count ed_erode sd_idle randn_count.

(** A flexure solver that returns a non-finite deflection at node 1. *)
Definition fl_broken (_ : Field) : Field :=
  fun n => match n with 1 => NaN | _ => F.zero end.

Definition cracked : Landlab nat nat :=
  mkLandlab ke_quiet fl_broken fa_count ed_erode sd_idle randn_zero.

(** The parameters above with a noise scale of 1. *)
Definition drift_params : Params :=
  {| sea_level_delta := q 1 1;
     crust_datum := crust_datum params;
     unit_wt := unit_wt params;
     dt := dt params;
     num_iter := num_iter params;
     plot_interval := plot_interval params;
     save_interval := save_interval params |}.

End Demo.

(** * Properties *)

(** ** Arithmetic of [num] *)

Lemma Qc_ltb_lt (a b : Qc) : Qc_ltb a b = true <-> (a < b)%Qc.
Proof. unfold Qc_ltb, Qclt, Qlt. apply Z.ltb_lt. Qed.

Lemma Qc_ltb_ge (a b : Qc) : Qc_ltb a b = false <-> (b <= a)%Qc.
Proof.
  split; intro H.
  - apply Qcnot_lt_le. intro Hlt. apply Qc_ltb_lt in Hlt. congruence.
  - destruct (Qc_ltb a b) eqn:E; [|reflexivity].
    apply Qc_ltb_lt in E. exfalso. exact (Qcle_not_lt _ _ H E).
Qed.

Lemma Qc_eqb_eq (a b : Qc) : Qc_eqb a b = true <-> a = b.
Proof.
  unfold Qc_eqb. rewrite Qeq_bool_iff. split.
  - apply Qc_is_canon.
  - intros ->. reflexivity.
Qed.

Lemma F_eqb_eq (a b : num) : F.eqb a b = true <-> a = b.
Proof.
  destruct a as [x|], b as [y|]; simpl; try (split; congruence).
  rewrite Qc_eqb_eq. split; congruence.
Qed.

Lemma F_eqb_neq (a b : num) : F.eqb a b = false -> a <> b.
Proof. intros H E. apply F_eqb_eq in E. congruence. Qed.

Lemma F_add_fin (a b : num) (r : Qc) :
  (a + b)%num = Fin r ->
  exists x y, a = Fin x /\ b = Fin y /\ r = (x + y)%Qc.
Proof.
  destruct a as [x|], b as [y|]; simpl; try discriminate.
  intros [= <-]. eauto.
Qed.

Lemma F_sub_fin (a b : num) (r : Qc) :
  (a - b)%num = Fin r ->
  exists x y, a = Fin x /\ b = Fin y /\ r = (x - y)%Qc.
Proof.
  destruct a as [x|], b as [y|]; simpl; try discriminate.
  intros [= <-]. eauto.
Qed.

Lemma F_add_zero_r (a : num) : (a + F.zero)%num = a.
Proof.
  destruct a as [x|]; [|reflexivity].
  unfold F.zero, F.of_Z. simpl. f_equal.
  change (Q2Qc (inject_Z 0)) with 0%Qc. ring.
Qed.

Lemma F_mul_zero_fin (d : Qc) : (F.zero * Fin d)%num = F.zero.
Proof.
  unfold F.zero, F.of_Z. simpl. f_equal.
  change (Q2Qc (inject_Z 0)) with 0%Qc. ring.
Qed.

Lemma F_gt_false_le (a b : Qc) : (Fin a >? Fin b)%num = false -> (a <= b)%Qc.
Proof. simpl. apply Qc_ltb_ge. Qed.

Lemma F_gt_irrefl (a : num) : (a >? a)%num = false.
Proof.
  destruct a as [x|]; [|reflexivity]. simpl.
  apply Qc_ltb_ge, Qcle_refl.
Qed.

(** ** Index and mask assignments *)

Lemma mem_In (n : node) (ids : list node) : mem n ids = true <-> In n ids.
Proof.
  unfold mem. rewrite existsb_exists. split.
  - intros [m [Hin Heq]]. apply Nat.eqb_eq in Heq. now subst.
  - intros Hin. exists n. split; [assumption | apply Nat.eqb_refl].
Qed.

Lemma mem_core_nodes (G : Geometry) (st : node -> NodeStatus) (n : node) :
  mem n (core_nodes G st) = (n <? number_of_nodes G) && is_core (st n).
Proof.
  apply eq_true_iff_eq.
  rewrite mem_In, andb_true_iff, Nat.ltb_lt.
  unfold core_nodes. rewrite filter_In, in_seq. simpl. intuition lia.
Qed.

Lemma core_nodes_core (G : Geometry) (st : node -> NodeStatus) (n : node) :
  In n (core_nodes G st) <-> n < number_of_nodes G /\ st n = BC_NODE_IS_CORE.
Proof.
  unfold core_nodes. rewrite filter_In, in_seq. simpl.
  destruct (st n); simpl; intuition (try lia; try discriminate).
Qed.

(** [peel p] drops, under the projection [p], every enclosing phase or
    statement that does not write the field [p] reads. *)
Ltac frame_eq p ph :=
  let H := fresh "Hframe" in
  assert (H : forall x, p (ph x) = p x) by (intro; reflexivity);
  rewrite !H; clear H.

Ltac peel p :=
  repeat match goal with
         | |- context [p (?ph ?x)] => frame_eq p ph
         end.

Section Properties.

Context {Hidden RNG : Type}.
Variable L : Landlab Hidden RNG.
Variable P : Params.
Variable G : Geometry.

Implicit Types w : World Hidden RNG.

(** ** The loop body as phases followed by the output checks *)

Lemma run_step_unfold w :
  run_step L P G w
  = BOOKKEEPING G
      (SUBMARINE_DIFFUSION L P
         (LAND_SEA_PARTITION_2
            (SUBMARINE_DEPOSITION P G
               (FLUVIAL_EROSION L P
                  (LAND_SEA_PARTITION_1
                     (SEA_LEVEL_UPDATE L P
                        (FLEXURE L P
                           (LOAD_UPDATE P G (EXTENSION L P w))))))))).
Proof. cbv beta delta [run_step compose phases fold_left]. reflexivity. Qed.

Lemma loop_body_unfold (i : nat) w :
  loop_body L P G i w = stmt_save P i (stmt_plot L P i (run_step L P G w)).
Proof.
  cbv beta zeta delta
    [ loop_body run_step compose phases fold_left
      EXTENSION LOAD_UPDATE FLEXURE SEA_LEVEL_UPDATE LAND_SEA_PARTITION_1
      FLUVIAL_EROSION SUBMARINE_DEPOSITION LAND_SEA_PARTITION_2
      SUBMARINE_DIFFUSION BOOKKEEPING ].
  reflexivity.
Qed.

Lemma run_S (k : nat) w :
  run L P G (S k) w = loop_body L P G (S k) (run L P G k w).
Proof.
  unfold run. rewrite seq_S, fold_left_app. reflexivity.
Qed.

(** The plot and save checks write nothing but the flow router's state
    and their own counters. *)
Ltac output_frame :=
  intros; unfold stmt_save, stmt_plot;
  repeat match goal with
         | |- context [if ?c then _ else _] => destruct c
         end; reflexivity.

Lemma output_z i w : z (stmt_save P i (stmt_plot L P i w)) = z w.
Proof. output_frame. Qed.

Lemma output_status i w :
  status_at_node (stmt_save P i (stmt_plot L P i w)) = status_at_node w.
Proof. output_frame. Qed.

Lemma output_thickness i w :
  thickness (stmt_save P i (stmt_plot L P i w)) = thickness w.
Proof. output_frame. Qed.

Lemma output_cum_depo i w :
  cum_depo (stmt_save P i (stmt_plot L P i w)) = cum_depo w.
Proof. output_frame. Qed.

Lemma output_cum_subs i w :
  cum_subs (stmt_save P i (stmt_plot L P i w)) = cum_subs w.
Proof. output_frame. Qed.

Lemma output_load i w :
  load (stmt_save P i (stmt_plot L P i w)) = load w.
Proof. output_frame. Qed.

Lemma output_deflection i w :
  deflection (stmt_save P i (stmt_plot L P i w)) = deflection w.
Proof. output_frame. Qed.

Lemma output_init_deflection i w :
  init_deflection (stmt_save P i (stmt_plot L P i w)) = init_deflection w.
Proof. output_frame. Qed.

Lemma output_perimeter i w :
  perimeter_nodes (stmt_save P i (stmt_plot L P i w)) = perimeter_nodes w.
Proof. output_frame. Qed.

Lemma output_current_sea_level i w :
  current_sea_level (stmt_save P i (stmt_plot L P i w))
  = current_sea_level w.
Proof. output_frame. Qed.

Lemma output_sea_level i w :
  sea_level (stmt_save P i (stmt_plot L P i w)) = sea_level w.
Proof. output_frame. Qed.

Lemma output_rng i w : rng (stmt_save P i (stmt_plot L P i w)) = rng w.
Proof. output_frame. Qed.

(** ** What each phase writes *)

Lemma status_partition_1 w (n : node) :
  status_at_node (LAND_SEA_PARTITION_1 w) n
  = if (z w n >? current_sea_level w)%num
    then BC_NODE_IS_CORE else BC_NODE_IS_FIXED_VALUE.
Proof.
  unfold LAND_SEA_PARTITION_1, stmt_status_subaerial_core,
    stmt_status_submarine_fixed, assign_where. cbn.
  destruct (z w n >? current_sea_level w)%num; reflexivity.
Qed.

Lemma submarine_partition_1 w (n : node) :
  submarine (LAND_SEA_PARTITION_1 w) n
  = negb (z w n >? current_sea_level w)%num.
Proof. reflexivity. Qed.

Lemma z0_partition_1 w : z0 (LAND_SEA_PARTITION_1 w) = z w.
Proof. reflexivity. Qed.

Lemma status_partition_2 w (n : node) :
  status_at_node (LAND_SEA_PARTITION_2 w) n
  = if perimeter_nodes w n then BC_NODE_IS_FIXED_VALUE
    else if submarine w n then BC_NODE_IS_CORE else status_at_node w n.
Proof. reflexivity. Qed.

Lemma z_flexure w (n : node) :
  z (FLEXURE L P w) n
  = (crust_datum P + thickness w n
     - (cum_subs w n + (fl_update L (load w) n - init_deflection w n)))%num.
Proof. reflexivity. Qed.

Lemma deflection_flexure w :
  deflection (FLEXURE L P w) = fl_update L (load w).
Proof. reflexivity. Qed.

Lemma load_load_update w (n : node) :
  load (LOAD_UPDATE P G w) n
  = if mem n (core_nodes G (status_at_node w))
    then (unit_wt P * (thickness w n - cum_subs w n))%num
    else load w n.
Proof. reflexivity. Qed.

Lemma z_deposition w (n : node) :
  z (SUBMARINE_DEPOSITION P G w) n
  = if submarine w n
    then (z w n + qs_in w n / area_of_cell G 0 * dt P)%num
    else z w n.
Proof. reflexivity. Qed.

Lemma deposition_writes_z w :
  SUBMARINE_DEPOSITION P G w = set_z (z (SUBMARINE_DEPOSITION P G w)) w.
Proof. reflexivity. Qed.

Lemma cum_depo_bookkeeping w (n : node) :
  cum_depo (BOOKKEEPING G w) n
  = if mem n (core_nodes G (status_at_node w))
    then (cum_depo w n + (z w n - z0 w n))%num
    else cum_depo w n.
Proof. reflexivity. Qed.

Lemma thickness_bookkeeping w (n : node) :
  thickness (BOOKKEEPING G w) n
  = if mem n (core_nodes G (status_at_node w))
    then (thickness w n + (z w n - z0 w n))%num
    else thickness w n.
Proof. reflexivity. Qed.

Lemma sea_level_update w :
  current_sea_level (SEA_LEVEL_UPDATE L P w)
  = sea_level_random (current_sea_level w) (sea_level_delta P)
      (fst (randn L (rng w)))
  /\ sea_level (SEA_LEVEL_UPDATE L P w)
     = sea_level w ++ [current_sea_level (SEA_LEVEL_UPDATE L P w)]
  /\ rng (SEA_LEVEL_UPDATE L P w) = snd (randn L (rng w)).
Proof. repeat split. Qed.

(** ** The node status across the loop *)

(** After the second partition a node is fixed-value when it is on the
    perimeter and core otherwise, whatever the status was before. *)
Lemma status_after_step w (n : node) :
  status_at_node (run_step L P G w) n
  = if perimeter_nodes w n then BC_NODE_IS_FIXED_VALUE else BC_NODE_IS_CORE.
Proof.
  rewrite run_step_unfold.
  peel (@status_at_node Hidden RNG).
  rewrite status_partition_2.
  peel (@perimeter_nodes Hidden RNG). peel (@submarine Hidden RNG).
  peel (@status_at_node Hidden RNG).
  rewrite submarine_partition_1, status_partition_1.
  destruct (perimeter_nodes w n); [reflexivity|].
  destruct (z _ n >? _)%num; reflexivity.
Qed.

Lemma perimeter_after_step w :
  perimeter_nodes (run_step L P G w) = perimeter_nodes w.
Proof. rewrite run_step_unfold. reflexivity. Qed.

Lemma core_is_interior_initial (g : LoadedGrid Hidden RNG) :
  core_is_interior (initial_world L P g).
Proof. intro n. cbn. now rewrite negb_involutive. Qed.

Lemma core_is_interior_step (i : nat) w :
  core_is_interior (loop_body L P G i w).
Proof.
  intro n. rewrite loop_body_unfold, output_status, output_perimeter.
  rewrite status_after_step, perimeter_after_step.
  destruct (perimeter_nodes w n); reflexivity.
Qed.

Lemma core_is_interior_run (k : nat) w :
  core_is_interior w -> core_is_interior (run L P G k w).
Proof.
  intro H. destruct k as [|k]; [exact H|].
  rewrite run_S. apply core_is_interior_step.
Qed.

Lemma perimeter_run (k : nat) w :
  perimeter_nodes (run L P G k w) = perimeter_nodes w.
Proof.
  induction k as [|k IH]; [reflexivity|].
  rewrite run_S, loop_body_unfold, output_perimeter, perimeter_after_step.
  exact IH.
Qed.

(** ** The sea level across the loop *)

Lemma sea_level_loop_body (i : nat) w :
  current_sea_level (loop_body L P G i w)
  = sea_level_random (current_sea_level w) (sea_level_delta P)
      (fst (randn L (rng w)))
  /\ sea_level (loop_body L P G i w)
     = sea_level w ++ [current_sea_level (loop_body L P G i w)]
  /\ rng (loop_body L P G i w) = snd (randn L (rng w)).
Proof.
  rewrite loop_body_unfold, output_current_sea_level, output_sea_level,
    output_rng, run_step_unfold.
  peel (@current_sea_level Hidden RNG). peel (@sea_level Hidden RNG).
  peel (@rng Hidden RNG).
  destruct (sea_level_update
              (FLEXURE L P (LOAD_UPDATE P G (EXTENSION L P w))))
    as (Hc & Hs & Hr).
  rewrite Hs, Hc, Hr. repeat split.
Qed.

Lemma sea_level_run_grows (k : nat) w :
  exists added,
    sea_level (run L P G k w) = sea_level w ++ added /\ length added = k.
Proof.
  induction k as [|k (added & Hs & Hl)].
  - exists []. split; [symmetry; apply app_nil_r | reflexivity].
  - rewrite run_S.
    destruct (sea_level_loop_body (S k) (run L P G k w)) as (_ & Happ & _).
    rewrite Happ, Hs, <- app_assoc. eexists. split; [reflexivity|].
    rewrite length_app, Hl. simpl. lia.
Qed.

Lemma sea_level_run_constant (k : nat) w :
  sea_level_delta P = F.zero ->
  current_sea_level (run L P G k w) = current_sea_level w
  /\ sea_level (run L P G k w)
     = sea_level w ++ repeat (current_sea_level w) k.
Proof.
  intro Hd. induction k as [|k (Hc & Hs)].
  - split; [reflexivity | symmetry; apply app_nil_r].
  - rewrite run_S.
    destruct (sea_level_loop_body (S k) (run L P G k w)) as (Hc' & Happ & _).
    assert (Hsame : current_sea_level (loop_body L P G (S k) (run L P G k w))
                    = current_sea_level w).
    { rewrite Hc'. unfold sea_level_random.
      rewrite Hd, F_mul_zero_fin, F_add_zero_r. exact Hc. }
    split; [exact Hsame|].
    rewrite Happ, Hsame, Hs, <- app_assoc. f_equal.
    change [current_sea_level w] with (repeat (current_sea_level w) 1).
    rewrite <- repeat_app. f_equal. lia.
Qed.

(** The loop against the walk: after [k] iterations the sea level and
    the generator state are those of [k] advances of the walk, and the
    history has grown by the sea levels of these advances, in order. *)
Lemma walk_history_S (delta : num) (k : nat) (level : num) (g : RNG) :
  walk_history L delta (S k) level g
  = walk_history L delta k level g ++ [fst (walk L delta (S k) level g)].
Proof. unfold walk_history. rewrite seq_S, map_app. reflexivity. Qed.

Lemma sea_level_run_walk (k : nat) w :
  let s := walk L (sea_level_delta P) k (current_sea_level w) (rng w) in
  current_sea_level (run L P G k w) = fst s
  /\ rng (run L P G k w) = snd s
  /\ sea_level (run L P G k w)
     = sea_level w
       ++ walk_history L (sea_level_delta P) k (current_sea_level w) (rng w).
Proof.
  cbv zeta. induction k as [|k (Hc & Hr & Hs)].
  - repeat split. symmetry. apply app_nil_r.
  - rewrite run_S.
    destruct (sea_level_loop_body (S k) (run L P G k w)) as (Hc' & Hs' & Hr').
    rewrite Hs', Hc', Hr', Hc, Hr, Hs, walk_history_S, <- app_assoc.
    repeat split.
Qed.

(** ** The load across the loop *)

Lemma load_loop_body (i : nat) w (n : node) :
  load (loop_body L P G i w) n
  = if mem n (core_nodes G (status_at_node w))
    then (unit_wt P * (thickness (EXTENSION L P w) n
                       - cum_subs (EXTENSION L P w) n))%num
    else load w n.
Proof.
  rewrite loop_body_unfold, output_load, run_step_unfold.
  peel (@load Hidden RNG). rewrite load_load_update.
  peel (@status_at_node Hidden RNG). peel (@load Hidden RNG).
  reflexivity.
Qed.

Lemma core_nodes_run (k : nat) w (n : node) :
  core_is_interior w ->
  mem n (core_nodes G (status_at_node (run L P G k w))) = interior G w n.
Proof.
  intro Hci. rewrite mem_core_nodes.
  rewrite (core_is_interior_run k Hci n), perimeter_run. reflexivity.
Qed.

Lemma load_run_off_core (k : nat) w (n : node) :
  core_is_interior w ->
  interior G w n = false ->
  load (run L P G k w) n = load w n.
Proof.
  intros Hci Hp. induction k as [|k IH]; [reflexivity|].
  rewrite run_S, load_loop_body, core_nodes_run, Hp by assumption.
  exact IH.
Qed.

(** ** The deposition phase *)

Lemma submarine_is_fixed_value w (n : node) :
  is_fixed_value
    (status_at_node (FLUVIAL_EROSION L P (LAND_SEA_PARTITION_1 w)) n)
  = submarine (FLUVIAL_EROSION L P (LAND_SEA_PARTITION_1 w)) n.
Proof.
  peel (@status_at_node Hidden RNG). peel (@submarine Hidden RNG).
  rewrite status_partition_1, submarine_partition_1.
  destruct (z w n >? current_sea_level w)%num; reflexivity.
Qed.

(** ** The bookkeeping of one iteration *)

Lemma status_before_bookkeeping w (n : node) :
  status_at_node
    (SUBMARINE_DIFFUSION L P
       (LAND_SEA_PARTITION_2
          (SUBMARINE_DEPOSITION P G
             (FLUVIAL_EROSION L P (LAND_SEA_PARTITION_1 w))))) n
  = if perimeter_nodes w n then BC_NODE_IS_FIXED_VALUE else BC_NODE_IS_CORE.
Proof.
  peel (@status_at_node Hidden RNG).
  rewrite status_partition_2.
  peel (@perimeter_nodes Hidden RNG). peel (@submarine Hidden RNG).
  peel (@status_at_node Hidden RNG).
  rewrite submarine_partition_1, status_partition_1.
  destruct (perimeter_nodes w n); [reflexivity|].
  destruct (z _ n >? _)%num; reflexivity.
Qed.

Lemma ledger_loop_body (i : nat) w (n : node) :
  let w' := loop_body L P G i w in
  let m := after_flexure L P G w in
  thickness w' n
  = (if interior G w n then (thickness m n + (z w' n - z m n))%num
     else thickness m n)
  /\ cum_depo w' n
     = (if interior G w n then (cum_depo w n + (z w' n - z m n))%num
        else cum_depo w n)
  /\ cum_subs w' = cum_subs m
  /\ deflection w' = deflection m
  /\ init_deflection w' = init_deflection w
  /\ z m n
     = (crust_datum P + thickness m n
        - (cum_subs m n + (deflection m n - init_deflection w n)))%num.
Proof.
  cbv zeta. unfold after_flexure.
  rewrite loop_body_unfold, output_thickness, output_cum_depo,
    output_cum_subs, output_deflection, output_init_deflection, output_z,
    run_step_unfold.
  rewrite thickness_bookkeeping, cum_depo_bookkeeping, mem_core_nodes.
  rewrite status_before_bookkeeping.
  peel (@perimeter_nodes Hidden RNG). peel (@z0 Hidden RNG).
  rewrite z0_partition_1.
  peel (@thickness Hidden RNG). peel (@cum_depo Hidden RNG).
  peel (@cum_subs Hidden RNG). peel (@deflection Hidden RNG).
  peel (@init_deflection Hidden RNG). peel (@z Hidden RNG).
  unfold interior.
  replace (is_core (if perimeter_nodes w n then BC_NODE_IS_FIXED_VALUE
                    else BC_NODE_IS_CORE))
    with (negb (perimeter_nodes w n))
    by (destruct (perimeter_nodes w n); reflexivity).
  repeat split.
Qed.

(** The elevation decomposition at a node whose thickness the
    bookkeeping has brought up to date. *)
Lemma decomposition_loop_body (i : nat) w (n : node) :
  let w' := loop_body L P G i w in
  interior G w n = true ->
  is_finite (thickness w' n) = true ->
  z w' n
  = (crust_datum P + thickness w' n
     - (cum_subs w' n + (deflection w' n - init_deflection w' n)))%num.
Proof.
  cbv zeta. intros Hin Hfin.
  destruct (ledger_loop_body i w n) as (Hth & _ & Hcs & Hd & Hi & Hz).
  rewrite Hin in Hth. rewrite Hth in Hfin |- *. rewrite Hcs, Hd, Hi.
  set (m := after_flexure L P G w) in *.
  destruct (thickness m n + (z (loop_body L P G i w) n - z m n))%num
    as [t'|] eqn:Et; [clear Hfin | discriminate].
  apply F_add_fin in Et. destruct Et as (t & e & Ht & He & ->).
  apply F_sub_fin in He. destruct He as (a & b & Ha & Hb & ->).
  rewrite Hb in Hz. symmetry in Hz.
  apply F_sub_fin in Hz. destruct Hz as (u & x & Hu & Hx & ->).
  rewrite Ht in Hu. apply F_add_fin in Hu.
  destruct Hu as (c & t0 & Hc & Ht0 & ->). injection Ht0 as <-.
  rewrite Ha, Hc, Hx. simpl. f_equal. ring.
Qed.

(** A non-finite elevation left by an iteration is booked like any
    other value. *)
Lemma non_finite_is_booked (i : nat) w (n : node) :
  let w' := loop_body L P G i w in
  interior G w n = true ->
  z w' n = NaN ->
  thickness w' n = NaN /\ cum_depo w' n = NaN.
Proof.
  cbv zeta. intros Hin Hz.
  destruct (ledger_loop_body i w n) as (Hth & Hcd & _).
  rewrite Hin, Hz in Hth, Hcd. rewrite Hth, Hcd.
  split.
  - destruct (thickness (after_flexure L P G w) n); reflexivity.
  - destruct (cum_depo w n); reflexivity.
Qed.

(** A non-finite deflection returned by the flexure update makes the
    elevation non-finite in the elevation update; the copy [z0] taken at
    the first partition is then non-finite, and with it the difference
    the bookkeeping enters, whatever the later phases leave. *)
Lemma non_finite_deflection_is_booked (i : nat) w (n : node) :
  deflection (after_flexure L P G w) n = NaN ->
  z (after_flexure L P G w) n = NaN
  /\ (interior G w n = true ->
      thickness (loop_body L P G i w) n = NaN
      /\ cum_depo (loop_body L P G i w) n = NaN).
Proof.
  intro Hd.
  destruct (ledger_loop_body i w n) as (Hth & Hcd & _ & _ & _ & Hz).
  assert (Hnan : z (after_flexure L P G w) n = NaN).
  { rewrite Hz, Hd.
    destruct (cum_subs (after_flexure L P G w) n);
      destruct (crust_datum P + thickness (after_flexure L P G w) n)%num;
      reflexivity. }
  split; [exact Hnan|].
  intro Hin. rewrite Hin, Hnan in Hth, Hcd. rewrite Hth, Hcd.
  split.
  - destruct (thickness (after_flexure L P G w) n);
      destruct (z (loop_body L P G i w) n); reflexivity.
  - destruct (cum_depo w n);
      destruct (z (loop_body L P G i w) n); reflexivity.
Qed.

(** A non-finite crustal thickness passed on by the extender makes the
    elevation non-finite in the elevation update. *)
Lemma non_finite_thickness_reaches_elevation w (n : node) :
  thickness (EXTENSION L P w) n = NaN ->
  z (after_flexure L P G w) n = NaN.
Proof.
  intro Ht.
  destruct (ledger_loop_body 0 w n) as (_ & _ & _ & _ & _ & Hz).
  assert (Hth : thickness (after_flexure L P G w) n
                = thickness (EXTENSION L P w) n)
    by (unfold after_flexure; peel (@thickness Hidden RNG); reflexivity).
  rewrite Hz, Hth, Ht.
  destruct (crust_datum P); reflexivity.
Qed.

(** A non-finite sediment influx reaches the elevation of a submarine
    node in the deposition phase and is not read at a subaerial node. *)
Lemma non_finite_flux_is_deposited w (n : node) :
  qs_in w n = NaN ->
  z (SUBMARINE_DEPOSITION P G w) n = if submarine w n then NaN else z w n.
Proof.
  intro Hq. rewrite z_deposition, Hq.
  destruct (submarine w n); [|reflexivity].
  destruct (z w n); reflexivity.
Qed.

(** The notebook itself never writes the cumulative subsidence: after an
    iteration the field is what the extender's call returned. *)
Lemma cum_subs_is_extender_output (i : nat) w :
  cum_subs (loop_body L P G i w)
  = ke_cum_subs
      (ke_run_one_step L (dt P) (hidden w) (z w) (thickness w) (cum_subs w)).
Proof.
  destruct (ledger_loop_body i w 0) as (_ & _ & Hcs & _).
  rewrite Hcs. unfold after_flexure. peel (@cum_subs Hidden RNG).
  reflexivity.
Qed.

(** ** The deposit ledger of a run without tectonics *)

Lemma cum_subs_loop_body (i : nat) w (n : node) :
  extension_off L ->
  cum_subs (loop_body L P G i w) n = cum_subs w n.
Proof.
  intro Hke.
  destruct (ledger_loop_body i w n) as (_ & _ & Hcs & _).
  rewrite Hcs. unfold after_flexure. peel (@cum_subs Hidden RNG).
  apply Hke.
Qed.

Lemma cum_subs_run (g : LoadedGrid Hidden RNG) (k : nat) (n : node) :
  extension_off L ->
  cum_subs (run L P G k (initial_world L P g)) n = F.zero.
Proof.
  intro Hke. induction k as [|k IH]; [reflexivity|].
  rewrite run_S, cum_subs_loop_body; assumption.
Qed.

Lemma init_deflection_run (k : nat) w :
  init_deflection (run L P G k w) = init_deflection w.
Proof.
  induction k as [|k IH]; [reflexivity|].
  rewrite run_S.
  destruct (ledger_loop_body (S k) (run L P G k w) 0)
    as (_ & _ & _ & _ & Hi & _).
  rewrite Hi. exact IH.
Qed.

Lemma interior_run (k : nat) w (n : node) :
  interior G (run L P G k w) n = interior G w n.
Proof. unfold interior. now rewrite perimeter_run. Qed.

Lemma deposit_ledger_run (g : LoadedGrid Hidden RNG) (k : nat) (n : node) :
  extension_off L ->
  isostasy_off L ->
  let w0 := initial_world L P g in
  interior G w0 n = true ->
  forall t, thickness (run L P G k w0) n = Fin t ->
  exists c zi,
    crust_datum P = Fin c
    /\ topographic__elevation g n = Fin zi
    /\ z (run L P G k w0) n = Fin (c + t)
    /\ cum_depo (run L P G k w0) n = Fin (c + t - zi).
Proof.
  cbv zeta. intros Hke Hfl Hin.
  induction k as [|k IH]; intros t' Ht'.
  - change (topographic__elevation g n - crust_datum P = Fin t')%num in Ht'.
    apply F_sub_fin in Ht'. destruct Ht' as (zi & c & Hz & Hc & ->).
    exists c, zi. repeat split; try assumption.
    + change (topographic__elevation g n = Fin (c + (zi - c))).
      rewrite Hz. f_equal. ring.
    + change (F.zero = Fin (c + (zi - c) - zi)).
      unfold F.zero, F.of_Z. f_equal.
      change (Q2Qc (inject_Z 0)) with 0%Qc. ring.
  - rewrite run_S in Ht' |- *.
    pose proof (ledger_loop_body (S k) (run L P G k (initial_world L P g)) n)
      as Hl.
    cbv zeta in Hl. rewrite interior_run, Hin in Hl.
    destruct Hl as (Hth & Hcd & _ & _ & _ & Hz).
    set (wk := run L P G k (initial_world L P g)) in *.
    set (w' := loop_body L P G (S k) wk) in *.
    rewrite Hth in Ht'.
    apply F_add_fin in Ht'. destruct Ht' as (t & e & Ht & He & ->).
    apply F_sub_fin in He. destruct He as (a & b & Ha & Hb & ->).
    assert (Htk : thickness wk n = Fin t).
    { rewrite <- Ht. unfold after_flexure. peel (@thickness Hidden RNG).
      symmetry. apply Hke. }
    destruct (IH t Htk) as (c & zi & Hc & Hzi & _ & Hdep).
    exists c, zi.
    assert (Hcs : cum_subs (after_flexure L P G wk) n = F.zero).
    { unfold after_flexure. peel (@cum_subs Hidden RNG).
      transitivity (cum_subs wk n); [apply Hke | apply cum_subs_run, Hke]. }
    assert (Hdf : deflection (after_flexure L P G wk) n
                  = init_deflection wk n).
    { unfold wk at 2. rewrite init_deflection_run.
      unfold after_flexure. rewrite deflection_flexure. apply Hfl. }
    rewrite Hb, Hc, Ht, Hcs, Hdf in Hz.
    destruct (init_deflection wk n) as [d|]; [|discriminate].
    unfold F.zero, F.of_Z in Hz. simpl in Hz. injection Hz as Hb'.
    change (Q2Qc (inject_Z 0)) with 0%Qc in Hb'.
    repeat split; try assumption.
    + rewrite Ha. f_equal. rewrite Hb'. ring.
    + rewrite Hcd, Hdep, Ha, Hb. simpl. f_equal. rewrite Hb'. ring.
Qed.

End Properties.

(** * The claims *)

(** ** Elevation decomposition *)

(** C1 (amended).  After every completed timestep, at every node that is
    core when the step completes (the nodes off the perimeter) and whose
    crustal thickness is finite, the elevation equals
    [crust_datum + thickness
     - (cum_subs + (deflection - init_deflection))]. *)
Theorem elevation_decomposition_at_core_nodes
  {Hidden RNG : Type} (L : Landlab Hidden RNG) (P : Params) (G : Geometry)
  (k : nat) (w : World Hidden RNG) (n : node) :
  let w' := run L P G (S k) w in
  In n (core_nodes G (status_at_node w')) ->
  is_finite (thickness w' n) = true ->
  z w' n
  = (crust_datum P + thickness w' n
     - (cum_subs w' n + (deflection w' n - init_deflection w' n)))%num.
Proof.
  cbv zeta. rewrite run_S. intros Hcore Hfin.
  apply decomposition_loop_body; [|exact Hfin].
  apply core_nodes_core in Hcore. destruct Hcore as (Hlt & Hst).
  rewrite loop_body_unfold, output_status, status_after_step in Hst.
  unfold interior. apply andb_true_iff. split.
  - now apply Nat.ltb_lt.
  - destruct (perimeter_nodes (run L P G k w) n);
      [discriminate | reflexivity].
Qed.

(** ** Phase order *)

(** C2 (amended).  Every iteration runs the ten phases in the order
    EXTENSION, LOAD_UPDATE, FLEXURE, SEA_LEVEL_UPDATE,
    LAND_SEA_PARTITION_1, FLUVIAL_EROSION, SUBMARINE_DEPOSITION,
    LAND_SEA_PARTITION_2, SUBMARINE_DIFFUSION, BOOKKEEPING and then the
    plot and the save check.  Its state transformation equals the
    composition of the ten phases when neither a plot nor a save is due;
    when one is due the two differ at most in the flow router's state
    and in the plot and save counters. *)
Theorem loop_body_is_ten_phases_then_output
  {Hidden RNG : Type} (L : Landlab Hidden RNG) (P : Params) (G : Geometry)
  (i : nat) (w : World Hidden RNG) :
  let ten :=
    compose
      [ EXTENSION L P; LOAD_UPDATE P G; FLEXURE L P; SEA_LEVEL_UPDATE L P;
        LAND_SEA_PARTITION_1; FLUVIAL_EROSION L P;
        SUBMARINE_DEPOSITION P G; LAND_SEA_PARTITION_2;
        SUBMARINE_DIFFUSION L P; BOOKKEEPING G ] in
  loop_body L P G i w = stmt_save P i (stmt_plot L P i (ten w))
  /\ same_simulation_state (loop_body L P G i w) (ten w)
  /\ ((F.of_nat i * dt P >=? next_plot w)%num = false ->
      (F.of_nat i * dt P >=? next_save w)%num = false ->
      loop_body L P G i w = ten w).
Proof.
  cbv zeta. fold (phases L P G). fold (run_step L P G w).
  rewrite loop_body_unfold.
  assert (Hp : next_plot (run_step L P G w) = next_plot w)
    by (rewrite run_step_unfold; reflexivity).
  assert (Hs : next_save (run_step L P G w) = next_save w)
    by (rewrite run_step_unfold; reflexivity).
  revert Hp Hs. generalize (run_step L P G w). intros v Hp Hs.
  split; [reflexivity|]. split.
  - unfold same_simulation_state, stmt_save, stmt_plot.
    repeat match goal with
           | |- context [if ?c then _ else _] => destruct c
           end; repeat split.
  - intros Hplot Hsave. unfold stmt_plot. rewrite Hp, Hplot.
    unfold stmt_save. rewrite Hs, Hsave. reflexivity.
Qed.

(** ** The first land/sea partition *)

(** C3 (amended).  In the first partition a node is classified core when
    its elevation is above the current sea level and fixed-value
    otherwise, so a node whose elevation equals the sea level is
    fixed-value as well; the fluvial phase leaves the classification as
    it is, and every node that is fixed-value during that phase is at or
    below the sea level at its start. *)
Theorem first_partition_classification
  {Hidden RNG : Type} (L : Landlab Hidden RNG) (P : Params)
  (w : World Hidden RNG) (n : node) :
  let w1 := LAND_SEA_PARTITION_1 w in
  (status_at_node w1 n = BC_NODE_IS_CORE
   <-> (z w1 n >? current_sea_level w1)%num = true)
  /\ (status_at_node w1 n = BC_NODE_IS_FIXED_VALUE
      <-> (z w1 n >? current_sea_level w1)%num = false)
  /\ status_at_node (FLUVIAL_EROSION L P w1) n = status_at_node w1 n
  /\ (forall a s,
        status_at_node w1 n = BC_NODE_IS_FIXED_VALUE ->
        z w1 n = Fin a -> current_sea_level w1 = Fin s -> (a <= s)%Qc).
Proof.
  cbv zeta.
  peel (@z Hidden RNG). peel (@current_sea_level Hidden RNG).
  peel (@status_at_node Hidden RNG).
  rewrite status_partition_1.
  destruct (z w n >? current_sea_level w)%num eqn:E.
  - repeat split; try congruence; try discriminate.
  - repeat split; try congruence; try discriminate.
    intros a s _ Ha Hs. rewrite Ha, Hs in E. now apply F_gt_false_le.
Qed.

(** ** Submarine deposition *)

(** C4.  The deposition phase turns each node's own sediment influx into
    a rate by dividing by the grid's cell area ([area_of_cell[0]], the
    area every cell of the hex grid has), and adds [rate * dt] to the
    elevation of exactly the submarine nodes, which are the nodes the
    fluvial phase held fixed-value; no other elevation and no other
    field changes. *)
Theorem submarine_deposition_adds_own_flux
  {Hidden RNG : Type} (L : Landlab Hidden RNG) (P : Params) (G : Geometry)
  (w : World Hidden RNG) (n : node) :
  let w2 := FLUVIAL_EROSION L P (LAND_SEA_PARTITION_1 w) in
  let w3 := SUBMARINE_DEPOSITION P G w2 in
  is_fixed_value (status_at_node w2 n) = submarine w2 n
  /\ z w3 n
     = (if is_fixed_value (status_at_node w2 n)
        then (z w2 n + qs_in w2 n / area_of_cell G 0 * dt P)%num
        else z w2 n)
  /\ w3 = set_z (z w3) w2.
Proof.
  cbv zeta.
  pose proof (submarine_is_fixed_value L P w n) as Hfix.
  revert Hfix. generalize (FLUVIAL_EROSION L P (LAND_SEA_PARTITION_1 w)).
  intros w2 Hfix.
  split; [exact Hfix|]. split.
  - rewrite Hfix. apply z_deposition.
  - apply deposition_writes_z.
Qed.

(** ** Non-finite values *)

(** C5 (amended).  The loop has no finiteness check and no abort path:
    from any state, non-finite values included, every one of the [k]
    iterations runs (each appends its sea level to the history), and a
    non-finite value is computed with like any other.  A non-finite
    elevation left by an iteration at a node off the perimeter is
    entered by that iteration's bookkeeping into the crustal thickness
    and the cumulative deposit.  A non-finite deflection returned by the
    flexure update makes the node's elevation non-finite in the same
    iteration's elevation update and, at a node off the perimeter, the
    crustal thickness and the cumulative deposit non-finite at the end
    of the iteration.  A non-finite sediment influx makes the elevation
    non-finite in the deposition phase at a submarine node and is not
    read at a subaerial node, whose elevation the phase leaves as it
    is.  A non-finite crustal thickness passed on by the extender makes
    the elevation non-finite in the elevation update. *)
Theorem non_finite_values_do_not_stop_the_run
  {Hidden RNG : Type} (L : Landlab Hidden RNG) (P : Params) (G : Geometry)
  (k : nat) (w : World Hidden RNG) :
  length (sea_level (run L P G k w)) = length (sea_level w) + k
  /\ (forall i n,
        interior G w n = true ->
        z (loop_body L P G i w) n = NaN ->
        thickness (loop_body L P G i w) n = NaN
        /\ cum_depo (loop_body L P G i w) n = NaN)
  /\ (forall i n,
        deflection (after_flexure L P G w) n = NaN ->
        z (after_flexure L P G w) n = NaN
        /\ (interior G w n = true ->
            thickness (loop_body L P G i w) n = NaN
            /\ cum_depo (loop_body L P G i w) n = NaN))
  /\ (forall n,
        qs_in w n = NaN ->
        z (SUBMARINE_DEPOSITION P G w) n
        = if submarine w n then NaN else z w n)
  /\ (forall n,
        thickness (EXTENSION L P w) n = NaN ->
        z (after_flexure L P G w) n = NaN).
Proof.
  split; [|split; [|split; [|split]]].
  - destruct (sea_level_run_grows L P G k w) as (added & Hs & Hl).
    rewrite Hs, length_app, Hl. reflexivity.
  - intros i n. apply non_finite_is_booked.
  - intros i n. apply non_finite_deflection_is_booked.
  - intro n. apply non_finite_flux_is_deposited.
  - intro n. apply non_finite_thickness_reaches_elevation.
Qed.

(** ** A step with the whole grid above the sea *)

(** C6 (amended).  When the sea level is below the elevation of every
    node of the grid at the first partition, every node is core from
    that partition through the fluvial and the deposition phase; the
    second partition returns the perimeter nodes, and no others, to
    fixed-value; the deposition phase changes no elevation and writes no
    other field.  The diffusion phase is still run, over the whole grid,
    and writes the elevation the diffuser returns. *)
Theorem emergent_step_partitions
  {Hidden RNG : Type} (L : Landlab Hidden RNG) (P : Params) (G : Geometry)
  (w : World Hidden RNG) :
  (forall n, n < number_of_nodes G ->
             (z w n >? current_sea_level w)%num = true) ->
  let w1 := LAND_SEA_PARTITION_1 w in
  let w2 := FLUVIAL_EROSION L P w1 in
  let w3 := SUBMARINE_DEPOSITION P G w2 in
  let w4 := LAND_SEA_PARTITION_2 w3 in
  (forall n, n < number_of_nodes G ->
             status_at_node w1 n = BC_NODE_IS_CORE
             /\ status_at_node w2 n = BC_NODE_IS_CORE
             /\ status_at_node w3 n = BC_NODE_IS_CORE
             /\ status_at_node w4 n
                = (if perimeter_nodes w n then BC_NODE_IS_FIXED_VALUE
                   else BC_NODE_IS_CORE)
             /\ z w3 n = z w2 n)
  /\ w3 = set_z (z w3) w2
  /\ SUBMARINE_DIFFUSION L P w4
     = (let r := sd_run_one_step L (current_sea_level w) (dt P) (hidden w4)
                   (status_at_node w4) (z w4) in
        set_z (sd_z r) (set_hidden (sd_hidden r) w4)).
Proof.
  intro Habove. cbv zeta. split; [|split].
  - intros n Hn. specialize (Habove n Hn).
    assert (H1 : status_at_node (LAND_SEA_PARTITION_1 w) n
                 = BC_NODE_IS_CORE)
      by (rewrite status_partition_1, Habove; reflexivity).
    assert (Hsub : submarine (LAND_SEA_PARTITION_1 w) n = false)
      by (rewrite submarine_partition_1, Habove; reflexivity).
    rewrite status_partition_2, z_deposition.
    peel (@status_at_node Hidden RNG). peel (@submarine Hidden RNG).
    peel (@perimeter_nodes Hidden RNG).
    rewrite Hsub, H1. repeat split.
  - apply deposition_writes_z.
  - replace (current_sea_level w)
      with (current_sea_level
              (LAND_SEA_PARTITION_2
                 (SUBMARINE_DEPOSITION P G
                    (FLUVIAL_EROSION L P (LAND_SEA_PARTITION_1 w)))))
      by (peel (@current_sea_level Hidden RNG); reflexivity).
    generalize (LAND_SEA_PARTITION_2
                  (SUBMARINE_DEPOSITION P G
                     (FLUVIAL_EROSION L P (LAND_SEA_PARTITION_1 w)))).
    intro v. reflexivity.
Qed.

(** ** Deposit against elevation change *)

(** C7.  In a run with extension rate 0 and isostasy disabled, after any
    number of completed steps, the cumulative deposit thickness summed
    over the core nodes equals the sum over the core nodes of the
    elevation change since the start of the run (the values being
    finite). *)
Theorem deposit_matches_elevation_change
  {Hidden RNG : Type} (L : Landlab Hidden RNG) (P : Params)
  (g : LoadedGrid Hidden RNG) (k : nat) :
  extension_off L ->
  isostasy_off L ->
  let w := run L P (geometry g) k (initial_world L P g) in
  let cores := core_nodes (geometry g) (status_at_node w) in
  (forall n, In n cores -> is_finite (thickness w n) = true) ->
  F.sum (map (cum_depo w) cores)
  = F.sum (map (fun n => (z w n - topographic__elevation g n)%num) cores).
Proof.
  intros Hke Hfl. cbv zeta. intro Hfin.
  f_equal. apply map_ext_in. intros n Hin.
  specialize (Hfin n Hin).
  apply core_nodes_core in Hin. destruct Hin as (Hlt & Hst).
  assert (Hint : interior (geometry g) (initial_world L P g) n = true).
  { unfold interior. apply andb_true_iff. split; [now apply Nat.ltb_lt|].
    rewrite <- (perimeter_run L P (geometry g) k).
    rewrite <- (core_is_interior_run L P (geometry g) k
                  (core_is_interior_initial L P g)).
    now rewrite Hst. }
  destruct (thickness (run L P (geometry g) k (initial_world L P g)) n)
    as [t|] eqn:Et; [|discriminate].
  destruct (@deposit_ledger_run _ _ L P (geometry g) g k n Hke Hfl Hint t Et)
    as (c & zi & _ & Hzi & Hz & Hdep).
  rewrite Hdep, Hz, Hzi. reflexivity.
Qed.

(** ** The sea-level walk *)

(** C9.  Each iteration replaces the current sea level by
    [current + delta * draw] for one standard normal draw, which
    advances the generator, and appends the new value to the history.
    The [k] iterations of a run are [k] advances of the random walk,
    each drawing from the generator state the one before it left: they
    determine the sea level, the generator state and every value
    appended.  The history only grows, by one value per iteration; with
    [delta = 0] the sea level never changes and the values appended are
    all equal to it. *)
Theorem sea_level_random_walk
  {Hidden RNG : Type} (L : Landlab Hidden RNG) (P : Params) (G : Geometry)
  (k : nat) (w : World Hidden RNG) :
  (forall i,
      let w' := loop_body L P G i w in
      current_sea_level w'
      = (current_sea_level w
         + sea_level_delta P * Fin (fst (randn L (rng w))))%num
      /\ sea_level w' = sea_level w ++ [current_sea_level w']
      /\ rng w' = snd (randn L (rng w)))
  /\ (let s := walk L (sea_level_delta P) k (current_sea_level w) (rng w) in
      current_sea_level (run L P G k w) = fst s
      /\ rng (run L P G k w) = snd s
      /\ sea_level (run L P G k w)
         = sea_level w
           ++ walk_history L (sea_level_delta P) k
                (current_sea_level w) (rng w))
  /\ (exists added,
         sea_level (run L P G k w) = sea_level w ++ added
         /\ length added = k)
  /\ (sea_level_delta P = F.zero ->
      current_sea_level (run L P G k w) = current_sea_level w
      /\ sea_level (run L P G k w)
         = sea_level w ++ repeat (current_sea_level w) k).
Proof.
  split; [|split; [|split]].
  - intro i. cbv zeta. apply sea_level_loop_body.
  - apply sea_level_run_walk.
  - apply sea_level_run_grows.
  - apply sea_level_run_constant.
Qed.

(** ** The flexural load *)

(** C10.  An iteration rewrites the load only at the ids in
    [grid.core_nodes]; in every iteration of a run these are the nodes
    of the grid that were core when the grid was loaded, and at every
    other index the load keeps, for the whole run, the value
    [unit_wt * (z - crust_datum)] given to it before the loop. *)
Theorem load_frozen_off_core
  {Hidden RNG : Type} (L : Landlab Hidden RNG) (P : Params)
  (g : LoadedGrid Hidden RNG) (k : nat) (n : node) :
  let G := geometry g in
  let w0 := initial_world L P g in
  (forall i w,
      load (loop_body L P G i w) n
      = if mem n (core_nodes G (status_at_node w))
        then (unit_wt P * (thickness (EXTENSION L P w) n
                           - cum_subs (EXTENSION L P w) n))%num
        else load w n)
  /\ mem n (core_nodes G (status_at_node (run L P G k w0)))
     = mem n (core_nodes G (status0 g))
  /\ (mem n (core_nodes G (status0 g)) = false ->
      load (run L P G k w0) n
      = (unit_wt P * (topographic__elevation g n - crust_datum P))%num).
Proof.
  cbv zeta.
  assert (Hint : interior (geometry g) (initial_world L P g) n
                 = mem n (core_nodes (geometry g) (status0 g))).
  { rewrite mem_core_nodes. unfold interior. cbn.
    now rewrite negb_involutive. }
  split; [|split].
  - intros i w. apply load_loop_body.
  - rewrite core_nodes_run by apply core_is_interior_initial. exact Hint.
  - intro Hoff. rewrite load_run_off_core.
    + reflexivity.
    + apply core_is_interior_initial.
    + now rewrite Hint.
Qed.

(** * The claims on the small world *)

Import Demo.

(** ** Elevation decomposition *)

(** After the first step the perimeter node 0, which lies under water
    and received one step of deposition, no longer satisfies the
    decomposition: its thickness was not brought up to date. *)
Lemma elevation_decomposition_fails_on_perimeter :
  let w' := run plain params geom 1 (start plain island) in
  is_finite (z w' 0) = true
  /\ is_finite (thickness w' 0) = true
  /\ z w' 0
     <> (crust_datum params + thickness w' 0
         - (cum_subs w' 0 + (deflection w' 0 - init_deflection w' 0)))%num.
Proof.
  cbv zeta. split; [|split]; try (vm_compute; reflexivity).
  apply F_eqb_neq. vm_compute. reflexivity.
Qed.

Lemma elevation_decomposition_at_core_nodes_witness :
  let w' := run plain params geom 2 (start plain island) in
  z w' 1
  = (crust_datum params + thickness w' 1
     - (cum_subs w' 1 + (deflection w' 1 - init_deflection w' 1)))%num.
Proof.
  cbv zeta.
  apply (elevation_decomposition_at_core_nodes plain params geom 1
           (start plain island) 1).
  - apply (proj1 (mem_In _ _)). vm_compute. reflexivity.
  - vm_compute. reflexivity.
Defined.

(** ** Phase order *)

(** The second iteration is due for a plot: it leaves the frame counter
    and the flow router's state other than the ten phases do. *)
Lemma plot_iteration_is_not_the_ten_phases :
  let w := run plain params geom 1 (start plain island) in
  loop_body plain params geom 2 w <> run_step plain params geom w
  /\ hidden (loop_body plain params geom 2 w)
     <> hidden (run_step plain params geom w).
Proof.
  cbv zeta. split.
  - intro H. apply (f_equal (@frame_num nat nat)) in H.
    vm_compute in H. discriminate.
  - intro H. vm_compute in H. discriminate.
Qed.

Lemma loop_body_is_ten_phases_then_output_witness :
  loop_body plain params geom 1 (start plain island)
  = compose
      [ EXTENSION plain params; LOAD_UPDATE params geom;
        FLEXURE plain params; SEA_LEVEL_UPDATE plain params;
        LAND_SEA_PARTITION_1; FLUVIAL_EROSION plain params;
        SUBMARINE_DEPOSITION params geom; LAND_SEA_PARTITION_2;
        SUBMARINE_DIFFUSION plain params; BOOKKEEPING geom ]
      (start plain island).
Proof.
  apply (loop_body_is_ten_phases_then_output plain params geom 1
           (start plain island)); vm_compute; reflexivity.
Defined.

(** ** The first land/sea partition *)

(** On the grid that lies at sea level, node 1 is classified fixed-value
    although its elevation is not below the sea level. *)
Lemma node_at_sea_level_is_fixed_value :
  let w1 := LAND_SEA_PARTITION_1 (at_partition plain shoal) in
  status_at_node w1 1 = BC_NODE_IS_FIXED_VALUE
  /\ (current_sea_level w1 >? z w1 1)%num = false
  /\ z w1 1 = current_sea_level w1.
Proof.
  cbv zeta. split; [|split].
  - vm_compute. reflexivity.
  - vm_compute. reflexivity.
  - apply F_eqb_eq. vm_compute. reflexivity.
Qed.

Lemma first_partition_classification_witness :
  let w1 := LAND_SEA_PARTITION_1 (at_partition plain island) in
  exists a s,
    z w1 2 = Fin a /\ current_sea_level w1 = Fin s /\ (a <= s)%Qc.
Proof.
  cbv zeta.
  destruct (z (LAND_SEA_PARTITION_1 (at_partition plain island)) 2)
    as [a|] eqn:Ea; [|vm_compute in Ea; discriminate].
  destruct (current_sea_level
              (LAND_SEA_PARTITION_1 (at_partition plain island)))
    as [s|] eqn:Es; [|vm_compute in Es; discriminate].
  exists a, s. split; [reflexivity|]. split; [reflexivity|].
  apply (first_partition_classification plain params
           (at_partition plain island) 2).
  - vm_compute. reflexivity.
  - exact Ea.
  - exact Es.
Defined.

(** ** Non-finite values *)

(** The solver leaves a non-finite elevation at node 1 in the first
    iteration; the second and the third iteration run all the same. *)
Lemma run_continues_after_non_finite :
  let w0 := start unstable island in
  z (run unstable params geom 1 w0) 1 = NaN
  /\ length (sea_level (run unstable params geom 1 w0)) = 1
  /\ length (sea_level (run unstable params geom 3 w0)) = 3
  /\ z (run unstable params geom 3 w0) 1 = NaN.
Proof. cbv zeta. repeat split; vm_compute; reflexivity. Qed.

Lemma non_finite_values_do_not_stop_the_run_witness :
  (let w' := loop_body unstable params geom 1 (start unstable island) in
   thickness w' 1 = NaN /\ cum_depo w' 1 = NaN)
  /\ (let w' := loop_body cracked params geom 1 (start cracked island) in
      thickness w' 1 = NaN /\ cum_depo w' 1 = NaN)
  /\ (let v := set_qs_in (fun _ => NaN)
                 (LAND_SEA_PARTITION_1 (at_partition plain island)) in
      z (SUBMARINE_DEPOSITION params geom v) 0
      = if submarine v 0 then NaN else z v 0).
Proof.
  split; [|split].
  - refine (proj1 (proj2 (non_finite_values_do_not_stop_the_run
                            unstable params geom 0 (start unstable island)))
              1 1 _ _);
      vm_compute; reflexivity.
  - refine (proj2 (proj1 (proj2 (proj2
              (non_finite_values_do_not_stop_the_run
                 cracked params geom 0 (start cracked island))))
              1 1 _) _);
      vm_compute; reflexivity.
  - refine (proj1 (proj2 (proj2 (proj2
              (non_finite_values_do_not_stop_the_run plain params geom 0
                 (set_qs_in (fun _ => NaN)
                    (LAND_SEA_PARTITION_1 (at_partition plain island)))))))
              0 _).
    reflexivity.
Defined.

(** ** A step with the whole grid above the sea *)

(** On the grid that stands above the sea, the perimeter node 0 is core
    after the first partition and fixed-value after the second, and the
    diffuser, whose coefficient is small above the sea but not zero,
    changes the elevation of node 1. *)
Lemma emergent_step_reclassifies_and_diffuses :
  let w := at_partition smooth plateau in
  let w1 := LAND_SEA_PARTITION_1 w in
  let w4 :=
    LAND_SEA_PARTITION_2
      (SUBMARINE_DEPOSITION params geom (FLUVIAL_EROSION smooth params w1)) in
  let w5 := SUBMARINE_DIFFUSION smooth params w4 in
  (forall n, n < 4 -> (z w n >? current_sea_level w)%num = true
                      /\ (z w5 n >? current_sea_level w5)%num = true)
  /\ status_at_node w1 0 = BC_NODE_IS_CORE
  /\ status_at_node w4 0 = BC_NODE_IS_FIXED_VALUE
  /\ z w5 1 <> z w4 1.
Proof.
  cbv zeta. split; [|split; [|split]]; try (vm_compute; reflexivity).
  - intros n Hn.
    do 4 (destruct n as [|n]; [split; vm_compute; reflexivity|]). lia.
  - apply F_eqb_neq. vm_compute. reflexivity.
Qed.

Lemma emergent_step_partitions_witness :
  let w1 := LAND_SEA_PARTITION_1 (at_partition plain plateau) in
  let w2 := FLUVIAL_EROSION plain params w1 in
  let w3 := SUBMARINE_DEPOSITION params geom w2 in
  status_at_node w3 2 = BC_NODE_IS_CORE /\ z w3 2 = z w2 2.
Proof.
  cbv zeta.
  assert (Habove : forall n, n < number_of_nodes geom ->
            (z (at_partition plain plateau) n
             >? current_sea_level (at_partition plain plateau))%num = true).
  { intros n Hn.
    do 4 (destruct n as [|n]; [vm_compute; reflexivity|]).
    simpl in Hn. lia. }
  destruct (emergent_step_partitions plain params geom
              (at_partition plain plateau) Habove) as (Hn & _).
  destruct (Hn 2 ltac:(simpl; lia)) as (_ & _ & Hs & _ & Hz).
  split; [exact Hs | exact Hz].
Defined.

(** ** Deposit against elevation change *)

Lemma plain_extension_off : extension_off plain.
Proof. intros dt h z th cs n. split; reflexivity. Qed.

Lemma plain_isostasy_off : isostasy_off plain.
Proof. intros l1 l2 n. reflexivity. Qed.

Lemma deposit_matches_elevation_change_witness :
  let g := grid_of island in
  let w := run plain params (geometry g) 3 (initial_world plain params g) in
  let cores := core_nodes (geometry g) (status_at_node w) in
  F.sum (map (cum_depo w) cores)
  = F.sum (map (fun n => (z w n - topographic__elevation g n)%num) cores).
Proof.
  refine (@deposit_matches_elevation_change _ _ plain params
            (grid_of island) 3 plain_extension_off plain_isostasy_off _).
  intros n Hin.
  apply (proj1 (core_nodes_core _ _ _)) in Hin. destruct Hin as (Hlt & _).
  do 4 (destruct n as [|n]; [vm_compute; reflexivity|]).
  simpl in Hlt. lia.
Defined.

(** ** The sea-level walk *)

Lemma sea_level_random_walk_witness :
  let w0 := start plain island in
  current_sea_level (run plain params geom 3 w0) = current_sea_level w0
  /\ sea_level (run plain params geom 3 w0)
     = sea_level w0 ++ repeat (current_sea_level w0) 3.
Proof.
  refine (proj2 (proj2 (proj2 (sea_level_random_walk plain params geom 3
                                 (start plain island)))) _).
  reflexivity.
Defined.

(** With a noise scale of 1 and a generator whose draws are 0, 1, 2 the
    three iterations append the sea levels 0, 1, 3 and leave the
    generator after its third draw, as three advances of the walk do. *)
Lemma sea_level_walk_on_counting_generator :
  let w0 := initial_world drifting drift_params (grid_of island) in
  let w := run drifting drift_params geom 3 w0 in
  sea_level w = [q 0 1; q 1 1; q 3 1]
  /\ current_sea_level w = q 3 1
  /\ rng w = 3
  /\ walk drifting (q 1 1) 3 (current_sea_level w0) (rng w0) = (q 3 1, 3).
Proof.
  cbv zeta. split; [|split; [|split]].
  - vm_compute.
    repeat (apply (f_equal2 cons);
            [apply F_eqb_eq; vm_compute; reflexivity|]).
    reflexivity.
  - apply F_eqb_eq. vm_compute. reflexivity.
  - vm_compute. reflexivity.
  - vm_compute.
    apply (f_equal2 pair); [apply F_eqb_eq; vm_compute|]; reflexivity.
Qed.

(** ** The flexural load *)

Lemma load_frozen_off_core_witness :
  let g := grid_of island in
  load (run plain params (geometry g) 3 (initial_world plain params g)) 0
  = (unit_wt params * (topographic__elevation g 0 - crust_datum params))%num.
Proof.
  refine (proj2 (proj2 (load_frozen_off_core plain params
                          (grid_of island) 3 0)) _).
  vm_compute. reflexivity.
Defined.

(** * Further properties of the time loop *)

Lemma F_add_assoc (a b c : num) : (a + b + c)%num = (a + (b + c))%num.
Proof.
  destruct a as [x|], b as [y|], c as [u|]; simpl; try reflexivity.
  f_equal. ring.
Qed.

Section LoopInvariants.

Context {Hidden RNG : Type}.
Variable L : Landlab Hidden RNG.
Variable P : Params.
Variable G : Geometry.

Implicit Types w : World Hidden RNG.

Lemma cum_depo_run_off_interior (k : nat) w (n : node) :
  interior G w n = false ->
  cum_depo (run L P G k w) n = cum_depo w n.
Proof.
  intro Hoff. induction k as [|k IH]; [reflexivity|].
  rewrite run_S.
  destruct (ledger_loop_body L P G (S k) (run L P G k w) n)
    as (_ & Hcd & _).
  rewrite Hcd, interior_run, Hoff. exact IH.
Qed.

Lemma status_run (k : nat) w (n : node) :
  status_at_node (run L P G (S k) w) n
  = if perimeter_nodes w n then BC_NODE_IS_FIXED_VALUE else BC_NODE_IS_CORE.
Proof.
  rewrite run_S, loop_body_unfold, output_status, status_after_step.
  now rewrite perimeter_run.
Qed.

Lemma thickness_after_extension w (n : node) :
  extension_off L ->
  thickness (after_flexure L P G w) n = thickness w n.
Proof.
  intro Hke. unfold after_flexure. peel (@thickness Hidden RNG).
  apply Hke.
Qed.

Lemma thickness_ledger_run (g : LoadedGrid Hidden RNG) (k : nat)
  (n : node) :
  extension_off L ->
  thickness (run L P G k (initial_world L P g)) n
  = (thickness (initial_world L P g) n
     + cum_depo (run L P G k (initial_world L P g)) n)%num.
Proof.
  intro Hke. induction k as [|k IH].
  - change (cum_depo (run L P G 0 (initial_world L P g)) n) with F.zero.
    symmetry. apply F_add_zero_r.
  - rewrite run_S.
    destruct (ledger_loop_body L P G (S k)
                (run L P G k (initial_world L P g)) n)
      as (Hth & Hcd & _).
    rewrite Hth, Hcd, thickness_after_extension by exact Hke.
    destruct (interior G (run L P G k (initial_world L P g)) n).
    + rewrite IH. apply F_add_assoc.
    + exact IH.
Qed.

End LoopInvariants.

(** X1.  Through a whole run the cumulative deposit is written at the
    nodes off the perimeter only, so at the perimeter it is still the
    zero it was created with: the zeroing [cdep[perimeter_nodes] = 0.0]
    of the final cell changes nothing, and [cdep] is the cumulative
    deposit at every node. *)
Theorem cdep_is_cum_depo
  {Hidden RNG : Type} (L : Landlab Hidden RNG) (P : Params)
  (g : LoadedGrid Hidden RNG) (k : nat) (n : node) :
  let w := run L P (geometry g) k (initial_world L P g) in
  cdep w n = cum_depo w n
  /\ (is_core (status0 g n) = false -> cum_depo w n = F.zero).
Proof.
  cbv zeta.
  assert (Hz : is_core (status0 g n) = false ->
               cum_depo (run L P (geometry g) k (initial_world L P g)) n
               = F.zero).
  { intro Hp. rewrite cum_depo_run_off_interior; [reflexivity|].
    unfold interior. cbn. rewrite Hp. apply andb_false_r. }
  split; [|exact Hz].
  unfold cdep, assign_where. rewrite perimeter_run. cbn.
  destruct (is_core (status0 g n)); cbn; [reflexivity|].
  symmetry. now apply Hz.
Qed.

(** X2.  In a run with extension rate 0 the crustal thickness of every
    node is, after any number of steps, its initial thickness plus the
    cumulative deposit booked at that node; the equation holds for
    non-finite values as well. *)
Theorem thickness_is_initial_plus_deposit
  {Hidden RNG : Type} (L : Landlab Hidden RNG) (P : Params)
  (g : LoadedGrid Hidden RNG) (k : nat) (n : node) :
  extension_off L ->
  let w := run L P (geometry g) k (initial_world L P g) in
  thickness w n
  = (topographic__elevation g n - crust_datum P + cum_depo w n)%num.
Proof.
  intro Hke. cbv zeta.
  rewrite (thickness_ledger_run P (geometry g) g k n Hke). reflexivity.
Qed.

(** X3.  Whatever boundary codes the loaded grid carries, after the
    first iteration and after every later one a node is core if it was
    core in the loaded grid and fixed-value otherwise: closed, looped
    and fixed-gradient nodes of the loaded grid become open fixed-value
    boundaries. *)
Theorem boundary_codes_are_normalised
  {Hidden RNG : Type} (L : Landlab Hidden RNG) (P : Params)
  (g : LoadedGrid Hidden RNG) (k : nat) (n : node) :
  status_at_node (run L P (geometry g) (S k) (initial_world L P g)) n
  = if is_core (status0 g n) then BC_NODE_IS_CORE
    else BC_NODE_IS_FIXED_VALUE.
Proof.
  rewrite status_run. cbn. destruct (is_core (status0 g n)); reflexivity.
Qed.

(** X4.  In a run with extension rate 0 and isostasy disabled, the
    elevation update of every iteration puts a node that was not core in
    the loaded grid back at its loaded elevation (finite values): what
    submarine deposition added there in the iteration before is not
    kept. *)
Theorem perimeter_elevation_is_reset
  {Hidden RNG : Type} (L : Landlab Hidden RNG) (P : Params)
  (g : LoadedGrid Hidden RNG) (k : nat) (n : node) (zi c : Qc) :
  extension_off L ->
  isostasy_off L ->
  is_core (status0 g n) = false ->
  topographic__elevation g n = Fin zi ->
  crust_datum P = Fin c ->
  is_finite (init_deflection (initial_world L P g) n) = true ->
  z (after_flexure L P (geometry g)
       (run L P (geometry g) k (initial_world L P g))) n
  = Fin zi.
Proof.
  intros Hke Hfl Hp Hzi Hc Hd.
  set (w0 := initial_world L P g) in *.
  set (wk := run L P (geometry g) k w0).
  destruct (ledger_loop_body L P (geometry g) (S k) wk n)
    as (_ & _ & _ & _ & _ & Hz).
  cbv zeta in Hz. rewrite Hz.
  rewrite thickness_after_extension by exact Hke.
  assert (Hth : thickness wk n = (Fin zi - Fin c + F.zero)%num).
  { unfold wk, w0.
    rewrite (thickness_ledger_run P (geometry g) g k n Hke).
    rewrite cum_depo_run_off_interior.
    - cbn. now rewrite Hzi, Hc.
    - unfold interior. cbn. rewrite Hp. apply andb_false_r. }
  assert (Hcs : cum_subs (after_flexure L P (geometry g) wk) n = F.zero).
  { unfold after_flexure. peel (@cum_subs Hidden RNG).
    transitivity (cum_subs wk n); [apply Hke | apply cum_subs_run, Hke]. }
  assert (Hdf : deflection (after_flexure L P (geometry g) wk) n
                = init_deflection wk n).
  { unfold wk at 2. rewrite init_deflection_run.
    unfold after_flexure. rewrite deflection_flexure. apply Hfl. }
  rewrite Hth, Hcs, Hdf, Hc. unfold wk at 1 2.
  rewrite init_deflection_run.
  destruct (init_deflection w0 n) as [d|]; [|discriminate].
  unfold F.zero, F.of_Z. simpl. f_equal.
  change (Q2Qc (inject_Z 0)) with 0%Qc. ring.
Qed.

(** * The plot and save schedule *)

Lemma this_Q2Qc (x : Q) : (this (Q2Qc x) == x)%Q.
Proof. apply Qred_correct. Qed.

Lemma F_of_nat_add (a b : nat) :
  F.of_nat (a + b) = (F.of_nat a + F.of_nat b)%num.
Proof.
  unfold F.of_nat, F.of_Z. simpl. f_equal. apply Qc_is_canon.
  unfold Qcplus. rewrite !this_Q2Qc.
  rewrite Nat2Z.inj_add, inject_Z_plus. reflexivity.
Qed.

Lemma Qc_of_nat_le (a b : nat) :
  (Q2Qc (inject_Z (Z.of_nat a)) <= Q2Qc (inject_Z (Z.of_nat b)))%Qc
  <-> a <= b.
Proof.
  unfold Qcle. rewrite !this_Q2Qc.
  rewrite <- Zle_Qle. symmetry. apply Nat2Z.inj_le.
Qed.

Lemma Qc_leb_le (a b : Qc) : Qc_leb a b = true <-> (a <= b)%Qc.
Proof. unfold Qc_leb, Qcle. apply Qle_bool_iff. Qed.

Lemma F_of_nat_mul (a b : nat) :
  F.of_nat (a * b) = (F.of_nat a * F.of_nat b)%num.
Proof.
  unfold F.of_nat, F.of_Z. simpl. f_equal. apply Qc_is_canon.
  unfold Qcmult. rewrite !this_Q2Qc.
  rewrite Nat2Z.inj_mul, inject_Z_mult. reflexivity.
Qed.

Lemma F_of_nat_ge (a b : nat) :
  (F.of_nat a >=? F.of_nat b)%num = (b <=? a).
Proof.
  apply eq_true_iff_eq. unfold F.of_nat, F.of_Z. simpl.
  rewrite Qc_leb_le, Nat.leb_le. apply Qc_of_nat_le.
Qed.

(** Whether iteration [i] has reached a due time of [c] time steps, for
    a time step of [D] whole years. *)
Lemma due_iff (D i c : nat) :
  0 < D ->
  (F.of_nat i * F.of_nat D >=? F.of_nat (c * D))%num = (c <=? i).
Proof.
  intro HD. rewrite <- F_of_nat_mul, F_of_nat_ge.
  apply eq_true_iff_eq. rewrite !Nat.leb_le. nia.
Qed.

(** The quotient [k / m] after one more iteration. *)
Lemma div_succ (m k : nat) :
  0 < m ->
  S k / m = if (k / m + 1) * m <=? S k then k / m + 1 else k / m.
Proof.
  intro Hm.
  pose proof (Nat.div_mod_eq k m) as Hk.
  pose proof (Nat.mod_upper_bound k m ltac:(lia)) as Hr.
  destruct ((k / m + 1) * m <=? S k) eqn:E.
  - apply Nat.leb_le in E. symmetry.
    apply (Nat.div_unique _ _ _ 0); nia.
  - apply Nat.leb_gt in E. symmetry.
    apply (Nat.div_unique _ _ _ (S (k mod m))); nia.
Qed.

Section Schedule.

Context {Hidden RNG : Type}.
Variable L : Landlab Hidden RNG.
Variable P : Params.
Variable G : Geometry.

Implicit Types w : World Hidden RNG.

Lemma plot_loop_body (i : nat) w :
  frame_num (loop_body L P G i w)
  = (if (F.of_nat i * dt P >=? next_plot w)%num
     then frame_num w + 1 else frame_num w)
  /\ next_plot (loop_body L P G i w)
     = (if (F.of_nat i * dt P >=? next_plot w)%num
        then (next_plot w + plot_interval P)%num else next_plot w).
Proof.
  rewrite loop_body_unfold.
  assert (Hp : next_plot (run_step L P G w) = next_plot w)
    by (rewrite run_step_unfold; reflexivity).
  assert (Hf : frame_num (run_step L P G w) = frame_num w)
    by (rewrite run_step_unfold; reflexivity).
  revert Hp Hf. generalize (run_step L P G w). intros v Hp Hf.
  unfold stmt_save, stmt_plot. rewrite Hp.
  destruct (F.of_nat i * dt P >=? next_plot w)%num;
    match goal with
    | |- context [if ?c then _ else _] => destruct c
    end; cbn; rewrite ?Hp, ?Hf; split; reflexivity.
Qed.

Lemma save_loop_body (i : nat) w :
  save_num (loop_body L P G i w)
  = (if (F.of_nat i * dt P >=? next_save w)%num
     then save_num w + 1 else save_num w)
  /\ next_save (loop_body L P G i w)
     = (if (F.of_nat i * dt P >=? next_save w)%num
        then (next_save w + save_interval P)%num else next_save w).
Proof.
  rewrite loop_body_unfold.
  assert (Hp : next_save (run_step L P G w) = next_save w)
    by (rewrite run_step_unfold; reflexivity).
  assert (Hf : save_num (run_step L P G w) = save_num w)
    by (rewrite run_step_unfold; reflexivity).
  revert Hp Hf. generalize (run_step L P G w). intros v Hp Hf.
  assert (Hp' : next_save (stmt_plot L P i v) = next_save w)
    by (unfold stmt_plot; destruct (_ >=? _)%num; exact Hp).
  assert (Hf' : save_num (stmt_plot L P i v) = save_num w)
    by (unfold stmt_plot; destruct (_ >=? _)%num; exact Hf).
  revert Hp' Hf'. generalize (stmt_plot L P i v). intros u Hp' Hf'.
  unfold stmt_save. rewrite Hp'.
  destruct (F.of_nat i * dt P >=? next_save w)%num;
    cbn; rewrite ?Hp', ?Hf'; split; reflexivity.
Qed.

End Schedule.

(** X5.  When the time step is a whole number [D >= 1] of years and the
    plot interval is [m >= 1] time steps, and the times involved stay
    within the whole numbers a float holds exactly
    ([(k + m) * D <= 2^53]), the loop has written [k / m] frames after
    [k] iterations, one at every [m]-th iteration, and the next plot is
    due at [(k / m + 1) * m * D]. *)
Theorem frames_after_k_iterations
  {Hidden RNG : Type} (L : Landlab Hidden RNG) (P : Params) (G : Geometry)
  (g : LoadedGrid Hidden RNG) (D m k : nat) :
  dt P = F.of_nat D -> 0 < D -> 0 < m ->
  plot_interval P = F.of_nat (m * D) ->
  (Z.of_nat ((k + m) * D) <= 2 ^ 53)%Z ->
  let w := run L P G k (initial_world L P g) in
  frame_num w = k / m
  /\ next_plot w = F.of_nat ((k / m + 1) * m * D).
Proof.
  intros Hdt HD Hm Hint _. cbv zeta. induction k as [|k (IHf & IHn)].
  - rewrite Nat.Div0.div_0_l. split; [reflexivity|].
    change (next_plot (run L P G 0 (initial_world L P g)))
      with (plot_interval P).
    rewrite Hint. f_equal. lia.
  - rewrite run_S.
    destruct (plot_loop_body L P G (S k) (run L P G k (initial_world L P g)))
      as (Hf & Hn).
    rewrite Hf, Hn, IHf, IHn, Hdt, due_iff, (div_succ k Hm) by exact HD.
    destruct ((k / m + 1) * m <=? S k); split; try reflexivity.
    rewrite Hint, <- F_of_nat_add. f_equal. lia.
Qed.

(** X6.  When the time step is a whole number [D >= 1] of years and the
    save interval is [s >= 1] time steps, and the times involved stay
    within the whole numbers a float holds exactly
    ([(k + s) * D <= 2^53]), the loop has saved the grid [k / s] times
    after [k] iterations, and the next save is due at
    [(k / s + 1) * s * D]. *)
Theorem saves_after_k_iterations
  {Hidden RNG : Type} (L : Landlab Hidden RNG) (P : Params) (G : Geometry)
  (g : LoadedGrid Hidden RNG) (D s k : nat) :
  dt P = F.of_nat D -> 0 < D -> 0 < s ->
  save_interval P = F.of_nat (s * D) ->
  (Z.of_nat ((k + s) * D) <= 2 ^ 53)%Z ->
  let w := run L P G k (initial_world L P g) in
  save_num w = k / s
  /\ next_save w = F.of_nat ((k / s + 1) * s * D).
Proof.
  intros Hdt HD Hs Hint _. cbv zeta. induction k as [|k (IHf & IHn)].
  - rewrite Nat.Div0.div_0_l. split; [reflexivity|].
    change (next_save (run L P G 0 (initial_world L P g)))
      with (save_interval P).
    rewrite Hint. f_equal. lia.
  - rewrite run_S.
    destruct (save_loop_body L P G (S k) (run L P G k (initial_world L P g)))
      as (Hf & Hn).
    rewrite Hf, Hn, IHf, IHn, Hdt, due_iff, (div_succ k Hs) by exact HD.
    destruct ((k / s + 1) * s <=? S k); split; try reflexivity.
    rewrite Hint, <- F_of_nat_add. f_equal. lia.
Qed.

(** * The names of the files *)

(** The number a string of decimal digits stands for. *)
Definition digits_value (s : String.string) : option nat :=
  option_map Nat.of_uint (DecimalString.NilEmpty.uint_of_string s).

Lemma digits_value_str (n : nat) : digits_value (str n) = Some n.
Proof.
  unfold digits_value, str. rewrite DecimalString.NilEmpty.usu. simpl.
  f_equal. apply DecimalNat.Unsigned.of_to.
Qed.

Lemma digits_value_zero (s : String.string) :
  digits_value (String.String "0" s) = digits_value s.
Proof.
  unfold digits_value. simpl.
  destruct (DecimalString.NilEmpty.uint_of_string s); reflexivity.
Qed.

Lemma digits_value_zeros (k : nat) (s : String.string) :
  digits_value (String.append (zeros_string k) s) = digits_value s.
Proof.
  induction k as [|k IH]; [reflexivity|].
  simpl. rewrite digits_value_zero. exact IH.
Qed.

Lemma digits_value_zfill (n width : nat) :
  digits_value (zfill (str n) width) = Some n.
Proof.
  rewrite <- (digits_value_str n). unfold zfill, str.
  destruct (width <=? _); [reflexivity|].
  generalize (width
              - String.length
                  (DecimalString.NilEmpty.string_of_uint (Nat.to_uint n))).
  intro k.
  destruct (Nat.to_uint n); cbn [DecimalString.NilEmpty.string_of_uint];
    try apply digits_value_zeros.
  rewrite <- (digits_value_zeros k String.EmptyString).
  f_equal. induction k as [|k IH]; [reflexivity|].
  simpl. now rewrite <- IH.
Qed.

Lemma list_ascii_of_append (a b : String.string) :
  String.list_ascii_of_string (String.append a b)
  = String.list_ascii_of_string a ++ String.list_ascii_of_string b.
Proof. induction a as [|c a IH]; simpl; [reflexivity | now rewrite IH]. Qed.

Lemma append_inj (p a b s : String.string) :
  String.append p (String.append a s)
  = String.append p (String.append b s) ->
  a = b.
Proof.
  intro H. apply (f_equal String.list_ascii_of_string) in H.
  rewrite !list_ascii_of_append in H.
  apply app_inv_head, app_inv_tail in H.
  rewrite <- (String.string_of_list_ascii_of_string a).
  rewrite <- (String.string_of_list_ascii_of_string b).
  now rewrite H.
Qed.

Lemma zfill_str_inj (a b width : nat) :
  zfill (str a) width = zfill (str b) width -> a = b.
Proof.
  intro H. apply (f_equal digits_value) in H.
  rewrite !digits_value_zfill in H. now injection H.
Qed.

(** X7.  Two different frame numbers never give the same image file
    name, and two different save numbers never give the same grid file
    name, whatever [ndigits] is and also when the number has more than
    [ndigits] digits: no frame and no saved grid overwrites another
    one. *)
Theorem file_names_are_distinct
  (save_name : String.string) (a b ndigits : nat) :
  a <> b ->
  frame_file a ndigits <> frame_file b ndigits
  /\ save_file save_name a ndigits <> save_file save_name b ndigits.
Proof.
  intro Hab. split; intro H; apply Hab;
    apply append_inj, zfill_str_inj in H; exact H.
Qed.

Lemma file_names_are_distinct_witness :
  frame_file 9 3 <> frame_file 10 3
  /\ save_file "rift-island-save" 9 3 <> save_file "rift-island-save" 10 3.
Proof.
  apply (file_names_are_distinct "rift-island-save" (a:=9) (b:=10) 3).
  lia.
Defined.

(** * The images *)

Lemma F_gt_sub_zero (a b : num) : (a - b >? F.zero)%num = (a >? b)%num.
Proof.
  destruct a as [x|], b as [y|]; try reflexivity.
  unfold F.zero, F.of_Z. simpl. change (Q2Qc (inject_Z 0)) with 0%Qc.
  apply eq_true_iff_eq. rewrite !Qc_ltb_lt.
  unfold Qcminus. symmetry. apply Qclt_minus_iff.
Qed.

Lemma F_gt_trans (a b c : num) :
  (a >? b)%num = true -> (b >? c)%num = true -> (a >? c)%num = true.
Proof.
  destruct a as [x|], b as [y|], c as [u|]; simpl; try discriminate.
  rewrite !Qc_ltb_lt. intros H1 H2. exact (Qclt_trans _ _ _ H2 H1).
Qed.

Lemma F_gt_asym (a b : num) :
  (a >? b)%num = true -> (b >? a)%num = false.
Proof.
  destruct a as [x|], b as [y|]; simpl; try discriminate.
  rewrite Qc_ltb_lt, Qc_ltb_ge. apply Qclt_le_weak.
Qed.

Section ImageProperties.

Context {Hidden RNG : Type}.
Variable L : Landlab Hidden RNG.
Variable Fl : FlowFields Hidden.
Variable D : Display.

(** X8.  When the fresh-water colour value is not positive (as with the
    notebook's [0.3] and [1650.0]), the image [display_island] draws is
    positive at a node exactly when the node is above the given sea
    level and is neither a channel nor flooded: dry land is what is
    drawn in land colours, and no node at or below sea level is drawn as
    fresh water. *)
Theorem display_image_sign (w : World Hidden RNG) (sea : num) (n : node) :
  (F_neg (scale_fac_for_surface_water D * max_elev_for_color_scale D)
   >? F.zero)%num = false ->
  let w' := display_island L w in
  (earth_sea_image L Fl D w sea n >? F.zero)%num
  = (z w n >? sea)%num
    && negb (is_channel_or_flooded Fl (area_threshold D) w' n)
  /\ ((z w n >? sea)%num = false ->
      earth_sea_image L Fl D w sea n = (z w n - sea)%num).
Proof.
  intro Hfresh. cbv zeta. unfold earth_sea_image, assign_where.
  change (z (display_island L w)) with (z w).
  rewrite F_gt_sub_zero.
  destruct (is_channel_or_flooded Fl (area_threshold D)
              (display_island L w) n);
    destruct (z w n >? sea)%num eqn:E; cbn [andb negb];
    rewrite ?F_gt_sub_zero, ?E, ?Hfresh; split;
    try reflexivity; try discriminate.
Qed.

(** X9.  In the final topography image a node is positive exactly when
    it is above sea level and is neither a river nor a lake; a node that
    is not above sea level keeps its depth, cut off at [-1500]; and no
    finite value of the image is below [-1500]. *)
Theorem final_image_range (w : World Hidden RNG) (n : node) :
  let w' := display_island L w in
  let above := (z w n >? current_sea_level w)%num in
  let depth := (z w n - current_sea_level w)%num in
  (final_image L Fl w n >? F.zero)%num
  = above
    && negb (drainage_area Fl (hidden w) n >? final_area_threshold)%num
    && negb (water_surface__elevation Fl (hidden w') n >? z w n)%num
  /\ (above = false ->
      final_image L Fl w n
      = if (deep_water_scale >? depth)%num then deep_water_scale
        else depth)
  /\ (deep_water_scale >? final_image L Fl w n)%num = false.
Proof.
  cbv zeta. unfold final_image, assign_where.
  change (z (display_island L w)) with (z w).
  pose proof (F_gt_sub_zero (z w n) (current_sea_level w)) as Habove.
  revert Habove.
  generalize (z w n - current_sea_level w)%num.
  generalize (z w n >? current_sea_level w)%num.
  generalize (drainage_area Fl (hidden w) n >? final_area_threshold)%num.
  generalize (water_surface__elevation Fl (hidden (display_island L w)) n
              >? z w n)%num.
  intros flooded area above depth Habove.
  assert (Hdz : (deep_water_scale >? F.zero)%num = false)
    by (vm_compute; reflexivity).
  assert (Hrz : (river_scale >? F.zero)%num = false)
    by (vm_compute; reflexivity).
  assert (Hdr : (deep_water_scale >? river_scale)%num = false)
    by (vm_compute; reflexivity).
  assert (Hdd : (deep_water_scale >? deep_water_scale)%num = false)
    by apply F_gt_irrefl.
  assert (Hnd : above = true -> (deep_water_scale >? depth)%num = false).
  { intro Ha. rewrite Ha in Habove.
    destruct (deep_water_scale >? depth)%num eqn:E; [|reflexivity].
    rewrite (F_gt_trans _ _ _ E Habove) in Hdz. discriminate. }
  rewrite Habove.
  destruct above.
  - rewrite (Hnd eq_refl).
    destruct area, flooded; cbn [andb negb];
      rewrite ?Hdr, ?Hrz, ?Hnd, ?Habove by reflexivity; cbn [andb negb];
      rewrite ?Hdr, ?Hrz, ?Habove;
      repeat split; try reflexivity; try discriminate.
  - rewrite andb_false_r. cbn [andb negb].
    destruct (deep_water_scale >? depth)%num eqn:Ed;
      rewrite ?Hdz, ?Habove, ?andb_false_r; cbn [andb negb];
      rewrite ?Hdd, ?Ed; repeat split; first [assumption | reflexivity].
Qed.

End ImageProperties.

(** * The cross-sectional profile *)

(** X10.  The profile is taken along one full row of the grid, row
    [rows // 2]: it has one entry per column, its [j]-th node is
    [(rows // 2) * cols + j], the three curves of the plot have the same
    length, and all its node ids are below [rows * cols] exactly when
    the grid has at least one row (or no column). *)
Theorem midrow_is_the_middle_row
  {Hidden RNG : Type} (Y : Layout) (w : World Hidden RNG) :
  let rows := number_of_node_rows Y in
  let cols := number_of_node_columns Y in
  length (midrow Y) = cols
  /\ length (profile_x Y) = cols
  /\ length (basement Y w) = cols
  /\ length (surface Y w) = cols
  /\ (forall j, j < cols -> nth j (midrow Y) 0 = rows / 2 * cols + j)
  /\ ((forall i, In i (midrow Y) -> i < rows * cols)
      <-> 0 < rows \/ cols = 0).
Proof.
  cbv zeta. unfold profile_x, basement, surface.
  rewrite !length_map, !length_seq.
  assert (Hlen : length (midrow Y) = number_of_node_columns Y).
  { unfold midrow. rewrite length_seq. lia. }
  rewrite Hlen. repeat split; try reflexivity.
  - intros j Hj. unfold midrow. rewrite seq_nth by lia. reflexivity.
  - intro Hall.
    destruct (number_of_node_columns Y) as [|c] eqn:Ec; [now right|].
    left. destruct (number_of_node_rows Y) as [|r] eqn:Er; [|lia].
    specialize (Hall 0). simpl in Hall.
    assert (H0 : In 0 (midrow Y)).
    { unfold midrow. rewrite Er, Ec. simpl. now left. }
    apply Hall in H0. lia.
  - intros Hok i Hi. unfold midrow in Hi. apply in_seq in Hi.
    destruct Hok as [Hr | Hc]; [|rewrite Hc in Hi; lia].
    pose proof (Nat.Div0.div_lt_upper_bound (number_of_node_rows Y) 2
                  (number_of_node_rows Y) ltac:(lia)) as Hhalf.
    nia.
Qed.

(** X11.  Along the profile the basement curve is never above the
    surface curve (finite values), and the two coincide wherever the
    cumulative deposit is not positive. *)
Theorem basement_below_surface
  {Hidden RNG : Type} (Y : Layout) (w : World Hidden RNG) :
  Forall2 (fun b s => forall x y, b = Fin x -> s = Fin y -> (x <= y)%Qc)
    (basement Y w) (surface Y w)
  /\ (forall n c,
        cdep w n = Fin c -> (c <= 0)%Qc -> is_finite (z w n) = true ->
        (z w n - F_maximum (cdep w n) F.zero)%num = z w n).
Proof.
  split.
  - unfold basement, surface. induction (midrow Y) as [|n l IH];
      simpl; constructor; [|exact IH].
    intros x y Hb Hs. rewrite Hs in Hb.
    destruct (cdep w n) as [c|]; [|discriminate].
    unfold F.zero, F.of_Z in Hb. simpl in Hb.
    change (Q2Qc (inject_Z 0)) with 0%Qc in Hb.
    injection Hb as <-.
    apply Qcle_minus_iff.
    destruct (Qc_ltb c 0) eqn:E.
    + replace (y + - (y - 0))%Qc with 0%Qc by ring. apply Qcle_refl.
    + apply Qc_ltb_ge in E.
      replace (y + - (y - c))%Qc with c by ring. exact E.
  - intros n c Hc Hle Hfin. rewrite Hc.
    destruct (z w n) as [a|]; [|discriminate].
    unfold F.zero, F.of_Z. simpl.
    change (Q2Qc (inject_Z 0)) with 0%Qc. f_equal.
    destruct (Qc_ltb c 0) eqn:E; [ring|].
    apply Qc_ltb_ge in E.
    rewrite (Qcle_antisym _ _ Hle E). ring.
Qed.

(** * Create Initial Island Topography: the shield *)

Section ShieldProperties.

Import Reals Lra.
Import Shield.
Local Open Scope R_scope.

(** X13.  On a grid with at least one node, a positive slope and an
    island area that is not negative, the shield cell succeeds and
    raises a node exactly when the node is closer to the centre than the
    island radius, lowers it exactly when it is farther away, adds
    nothing at that radius and never adds more than
    [shield_slope * island_radius]; the disc of that radius has the area
    [island_area]. *)
Theorem shield_raises_the_island_disc
  (g : Nodes) (z : node -> R) (fill_proportion shield_slope : R)
  (area cx cy : R) :
  island_area g fill_proportion = Some area ->
  centre g = Some (cx, cy) ->
  0 <= area ->
  0 < shield_slope ->
  exists z',
    shield_cell g z fill_proportion shield_slope = Some z'
    /\ PI * island_radius area ^ 2 = area
    /\ forall n,
         (z n < z' n <-> dist g cx cy n < island_radius area)
         /\ (z' n < z n <-> island_radius area < dist g cx cy n)
         /\ (dist g cx cy n = island_radius area -> z' n = z n)
         /\ z' n <= z n + shield_slope * island_radius area.
Proof.
  intros Harea Hctr Hpos Hslope.
  unfold shield_cell, shieldify. rewrite Harea, Hctr.
  eexists. split; [reflexivity|]. split.
  - unfold island_radius. simpl pow. rewrite Rmult_1_r, sqrt_sqrt.
    + field. apply Rgt_not_eq, PI_RGT_0.
    + apply Rmult_le_pos; [exact Hpos|].
      left. apply Rinv_0_lt_compat, PI_RGT_0.
  - intro n.
    assert (Hd : 0 <= dist g cx cy n) by apply sqrt_pos.
    generalize dependent (dist g cx cy n). intros d Hd.
    generalize (island_radius area). intro r.
    repeat split; intros; nra.
Qed.

End ShieldProperties.

(** * The further properties on the small world *)

Section FurtherWitnesses.

Import Gallery.

Lemma cdep_is_cum_depo_witness :
  let g := grid_of island in
  cum_depo (run plain params (geometry g) 3 (initial_world plain params g)) 0
  = F.zero.
Proof.
  refine (proj2 (cdep_is_cum_depo plain params (grid_of island) 3 0) _).
  reflexivity.
Defined.

Lemma thickness_is_initial_plus_deposit_witness :
  let g := grid_of island in
  let w := run plain params (geometry g) 3 (initial_world plain params g) in
  thickness w 1
  = (topographic__elevation g 1 - crust_datum params + cum_depo w 1)%num.
Proof.
  exact (@thickness_is_initial_plus_deposit _ _ plain params
           (grid_of island) 3 1 plain_extension_off).
Defined.

Lemma perimeter_elevation_is_reset_witness :
  let g := grid_of island in
  z (after_flexure plain params (geometry g)
       (run plain params (geometry g) 2 (initial_world plain params g))) 0
  = Fin (Q2Qc (-5 # 1)).
Proof.
  refine (@perimeter_elevation_is_reset _ _ plain params (grid_of island)
            2 0 (Q2Qc (-5 # 1)) (Q2Qc (-10 # 1))
            plain_extension_off plain_isostasy_off _ _ _ _);
    reflexivity.
Defined.

Lemma params_dt : dt params = F.of_nat 1.
Proof. apply F_eqb_eq. vm_compute. reflexivity. Qed.

Lemma params_plot_interval : plot_interval params = F.of_nat (2 * 1).
Proof. apply F_eqb_eq. vm_compute. reflexivity. Qed.

Lemma params_save_interval : save_interval params = F.of_nat (3 * 1).
Proof. apply F_eqb_eq. vm_compute. reflexivity. Qed.

Lemma frames_after_k_iterations_witness :
  let w := run plain params geom 3 (initial_world plain params
                                      (grid_of island)) in
  frame_num w = 3 / 2
  /\ next_plot w = F.of_nat ((3 / 2 + 1) * 2 * 1).
Proof.
  refine (@frames_after_k_iterations _ _ plain params geom
            (grid_of island) 1 2 3 params_dt _ _ params_plot_interval _).
  - lia.
  - lia.
  - apply Z.leb_le. reflexivity.
Defined.

Lemma saves_after_k_iterations_witness :
  let w := run plain params geom 3 (initial_world plain params
                                      (grid_of island)) in
  save_num w = 3 / 3
  /\ next_save w = F.of_nat ((3 / 3 + 1) * 3 * 1).
Proof.
  refine (@saves_after_k_iterations _ _ plain params geom
            (grid_of island) 1 3 3 params_dt _ _ params_save_interval _).
  - lia.
  - lia.
  - apply Z.leb_le. reflexivity.
Defined.

Lemma display_image_sign_witness :
  let w := run plain params geom 1 (start plain island) in
  (earth_sea_image plain flow display w (current_sea_level w) 1
   >? F.zero)%num
  = (z w 1 >? current_sea_level w)%num
    && negb (is_channel_or_flooded flow (area_threshold display)
               (display_island plain w) 1).
Proof.
  refine (proj1 (display_image_sign plain flow display _ _ 1 _)).
  vm_compute. reflexivity.
Defined.

Lemma final_image_range_witness :
  let w := run plain params geom 1 (start plain island) in
  final_image plain flow w 0
  = if (deep_water_scale >? z w 0 - current_sea_level w)%num
    then deep_water_scale
    else (z w 0 - current_sea_level w)%num.
Proof.
  refine (proj1 (proj2 (final_image_range plain flow _ 0)) _).
  vm_compute. reflexivity.
Defined.

Lemma midrow_is_the_middle_row_witness :
  nth 1 (midrow layout) 0 = 2 / 2 * 2 + 1.
Proof.
  refine (proj1 (proj2 (proj2 (proj2 (proj2
            (midrow_is_the_middle_row layout (start plain island))))))
            1 _).
  simpl. lia.
Defined.

Lemma basement_below_surface_witness :
  let w := run plain params geom 3 (start plain island) in
  (z w 1 - F_maximum (cdep w 1) F.zero)%num = z w 1.
Proof.
  cbv zeta.
  destruct (cdep (run plain params geom 3 (start plain island)) 1)
    as [c|] eqn:Ec; [|vm_compute in Ec; discriminate].
  rewrite <- Ec.
  refine (proj2 (basement_below_surface layout
                   (run plain params geom 3 (start plain island)))
            1 c Ec _ _).
  - apply Qc_ltb_ge.
    assert (H : (F.zero >? cdep (run plain params geom 3
                                   (start plain island)) 1)%num = true)
      by (vm_compute; reflexivity).
    rewrite Ec in H. unfold F.zero, F.of_Z in H. simpl in H.
    apply Qc_ltb_lt in H. apply Qc_ltb_ge. now apply Qclt_le_weak.
  - vm_compute. reflexivity.
Defined.

Import Reals Lra.

Lemma shield_raises_the_island_disc_witness :
  exists z',
    Shield.shield_cell one_node (fun _ => 0%R) 0.5%R 0.01%R = Some z'
    /\ (PI * Shield.island_radius (0.5 * 2 * 2) ^ 2 = 0.5 * 2 * 2)%R.
Proof.
  destruct (@shield_raises_the_island_disc one_node (fun _ => 0%R)
              0.5%R 0.01%R (0.5 * 2 * 2)%R (0.5 * 2)%R (0.5 * 2)%R
              eq_refl eq_refl ltac:(lra) ltac:(lra))
    as (z' & Hz & Harea & _).
  exists z'. split; assumption.
Defined.

End FurtherWitnesses.

(** * The first elevation update *)

Lemma F_sub_zero_r (a : num) : (a - F.zero)%num = a.
Proof.
  destruct a as [x|]; [|reflexivity].
  unfold F.zero, F.of_Z. simpl. f_equal.
  change (Q2Qc (inject_Z 0)) with 0%Qc. ring.
Qed.

(** X14.  In a run with extension rate 0 the first load update writes
    back the load of the set-up cell, so the first flexure update
    returns the initial deflection and the first elevation update leaves
    every node at its loaded elevation (finite values): the initial
    deflection is fully accounted for in the loaded topography. *)
Theorem first_elevation_update_keeps_topography
  {Hidden RNG : Type} (L : Landlab Hidden RNG) (P : Params)
  (g : LoadedGrid Hidden RNG) (n : node) (zi c : Qc) :
  extension_off L ->
  topographic__elevation g n = Fin zi ->
  crust_datum P = Fin c ->
  is_finite (init_deflection (initial_world L P g) n) = true ->
  let m := after_flexure L P (geometry g) (initial_world L P g) in
  load m = load (initial_world L P g)
  /\ deflection m = init_deflection (initial_world L P g)
  /\ z m n = Fin zi.
Proof.
  intros Hke Hzi Hc Hd. cbv zeta.
  set (w0 := initial_world L P g) in *.
  assert (Hload : load (after_flexure L P (geometry g) w0) = load w0).
  { unfold after_flexure. peel (@load Hidden RNG).
    apply functional_extensionality. intro i.
    rewrite load_load_update.
    destruct (mem i _); [|reflexivity].
    peel (@status_at_node Hidden RNG).
    replace (thickness (EXTENSION L P w0) i) with (thickness w0 i)
      by (symmetry; apply Hke).
    replace (cum_subs (EXTENSION L P w0) i) with F.zero
      by (symmetry; transitivity (cum_subs w0 i);
          [apply Hke | reflexivity]).
    now rewrite F_sub_zero_r. }
  assert (Hdef : deflection (after_flexure L P (geometry g) w0)
                 = init_deflection w0).
  { unfold after_flexure. rewrite deflection_flexure.
    change (load (LOAD_UPDATE P (geometry g) (EXTENSION L P w0)))
      with (load (after_flexure L P (geometry g) w0)).
    rewrite Hload. reflexivity. }
  split; [exact Hload|]. split; [exact Hdef|].
  destruct (ledger_loop_body L P (geometry g) 1 w0 n)
    as (_ & _ & _ & _ & _ & Hz).
  cbv zeta in Hz. rewrite Hz, Hdef.
  rewrite thickness_after_extension by exact Hke.
  replace (cum_subs (after_flexure L P (geometry g) w0) n) with F.zero.
  - change (thickness w0 n)
      with (topographic__elevation g n - crust_datum P)%num.
    rewrite Hzi, Hc.
    destruct (init_deflection w0 n) as [d|]; [|discriminate].
    unfold F.zero, F.of_Z. simpl. f_equal.
    change (Q2Qc (inject_Z 0)) with 0%Qc. ring.
  - symmetry. unfold after_flexure. peel (@cum_subs Hidden RNG).
    transitivity (cum_subs w0 n); [apply Hke | reflexivity].
Qed.

Lemma first_elevation_update_keeps_topography_witness :
  let g := Demo.grid_of Demo.island in
  z (after_flexure Demo.plain Demo.params (geometry g)
       (initial_world Demo.plain Demo.params g)) 1
  = Fin (Q2Qc (3 # 1)).
Proof.
  refine (proj2 (proj2
            (@first_elevation_update_keeps_topography _ _ Demo.plain
               Demo.params (Demo.grid_of Demo.island) 1
               (Q2Qc (3 # 1)) (Q2Qc (-10 # 1))
               plain_extension_off _ _ _)));
    reflexivity.
Defined.
